(** * BespokenEncoder: the fetch / transcode / publish pipeline of
    [src/lib/serverEncoder.ts], embedded in Rocq.

    The TypeScript module is a chain of Node callbacks around five
    collaborators: the [tmp] package, the [request] HTTP client, the
    [ffmpeg] binary started through [child_process.execFile], the [fs]
    module and the S3 client of [aws-sdk].  The embedding keeps the
    callback structure of the source: every function of the namespace
    [Encoder] takes its callback as a continuation and transforms a
    [State], which holds the files on disk, the trace of what the
    process did so far and whether an uncaught exception ended it.

    What the collaborators answer is read from a [World]: the names
    [tmp] comes up with, the events the HTTP request emits (any number,
    in any order), how [ffmpeg] ends, what reading a file gives, what
    the store says to [putObject], and whether the file system refuses a
    deletion.  The callbacks of the collaborators run one after the
    other, in the order in which the code is written.  A request to
    create, write or read a file is answered where it is issued;
    [fs.unlink] only issues its request, and the deletion is carried
    out after the statements that follow the call and all they set
    going. *)

From Stdlib Require Import ZArith Ascii String List Bool Lia.
From stdpp Require Import base gmap sets list strings.

Local Open Scope Z_scope.

(* [set_solver] clears hypotheses it has already used up. *)
#[local] Set Warnings "-clear-no-such-hyp".

(** ** JavaScript strings *)

Module Js.

(** [!s] is false for [null] and for the empty string. *)
Definition truthy (s : option string) : bool :=
  match s with
  | None => false
  | Some EmptyString => false
  | Some (String _ _) => true
  end.

(** What string concatenation makes of a possibly-null string. *)
Definition show (s : option string) : string :=
  match s with
  | None => "null"
  | Some s => s
  end.

Fixpoint lastIndexOf_from (s : string) (c : ascii) (i acc : Z) : Z :=
  match s with
  | EmptyString => acc
  | String a s' =>
      lastIndexOf_from s' c (i + 1) (if Ascii.eqb a c then i else acc)
  end.

(** [s.lastIndexOf(c)] for a needle of one character: the index of its
    last occurrence, [-1] when there is none. *)
Definition lastIndexOf (s : string) (c : ascii) : Z :=
  lastIndexOf_from s c 0 (-1).

(** [s.substr(start)]: a negative [start] counts from the end of the
    string. *)
Definition substr (s : string) (start : Z) : string :=
  let len := Z.of_nat (String.length s) in
  let from := if start <? 0 then Z.max (len + start) 0 else Z.min start len in
  String.substring (Z.to_nat from) (Z.to_nat (len - from)) s.

Fixpoint indexOf_from (s : string) (c : ascii) (i : Z) : Z :=
  match s with
  | EmptyString => -1
  | String a s' => if Ascii.eqb a c then i else indexOf_from s' c (i + 1)
  end.

(** [s.indexOf(c)] for a needle of one character: the index of its
    first occurrence, [-1] when there is none. *)
Definition indexOf (s : string) (c : ascii) : Z := indexOf_from s c 0.

(** [s.substr(start, length)]: a negative [start] counts from the end, a
    negative [length] counts as none. *)
Definition substr_len (s : string) (start length : Z) : string :=
  let len := Z.of_nat (String.length s) in
  let from := if start <? 0 then Z.max (len + start) 0 else Z.min start len in
  let count := Z.min (Z.max length 0) (len - from) in
  String.substring (Z.to_nat from) (Z.to_nat count) s.

End Js.

(** ** Regular expressions

    [isWebUrl] tests its argument against a regular expression literal
    that uses no back-reference and no look-ahead, so that [test] decides
    membership in a regular language.  The matcher below decides it by
    derivatives. *)

Module Re.

(** The character classes the literal uses. *)
Inductive cls : Type :=
| Chr (a : ascii)
| Digit
| Word
| WordDash
| Any.

Definition between (lo hi c : ascii) : bool :=
  (nat_of_ascii lo <=? nat_of_ascii c)%nat && (nat_of_ascii c <=? nat_of_ascii hi)%nat.

(** [\d] *)
Definition digit (c : ascii) : bool := between "0" "9" c.

(** [\w] *)
Definition word (c : ascii) : bool :=
  between "a" "z" c || between "A" "Z" c || digit c || Ascii.eqb c "_".

(** [[\w-]] *)
Definition word_or_dash (c : ascii) : bool := word c || Ascii.eqb c "-".

(** [.]: any character but a line terminator.  Of the four that
    JavaScript knows, line feed and carriage return are characters of
    [ascii]; U+2028 and U+2029 are not. *)
Definition any (c : ascii) : bool :=
  negb (Ascii.eqb c "010" || Ascii.eqb c "013").

Definition mem (k : cls) (c : ascii) : bool :=
  match k with
  | Chr a => Ascii.eqb a c
  | Digit => digit c
  | Word => word c
  | WordDash => word_or_dash c
  | Any => any c
  end.

Inductive regex : Type :=
| Void : regex
| Eps : regex
| Class : cls -> regex
| Cat : regex -> regex -> regex
| Alt : regex -> regex -> regex
| Star : regex -> regex.

#[global] Instance cls_eq_dec : EqDecision cls.
Proof. solve_decision. Defined.

#[global] Instance regex_eq_dec : EqDecision regex.
Proof. solve_decision. Defined.

Definition chr (a : ascii) : regex := Class (Chr a).

Fixpoint lit (s : string) : regex :=
  match s with
  | EmptyString => Eps
  | String a s' => Cat (chr a) (lit s')
  end.

(** [r?], [r+] and [r{1,5}] *)
Definition opt (r : regex) : regex := Alt r Eps.
Definition plus (r : regex) : regex := Cat r (Star r).
Definition upto5 (r : regex) : regex :=
  Cat r (opt (Cat r (opt (Cat r (opt (Cat r (opt r))))))).

Fixpoint nullable (r : regex) : bool :=
  match r with
  | Void => false
  | Eps => true
  | Class _ => false
  | Cat r1 r2 => nullable r1 && nullable r2
  | Alt r1 r2 => nullable r1 || nullable r2
  | Star _ => true
  end.

(** Concatenation and choice that keep derivatives small: they drop
    what cannot match and do not keep the same alternative twice. *)
Definition cat (r1 r2 : regex) : regex :=
  match r1, r2 with
  | Void, _ => Void
  | _, Void => Void
  | Eps, _ => r2
  | _, _ => Cat r1 r2
  end.

Definition alt (r1 r2 : regex) : regex :=
  match r1, r2 with
  | Void, _ => r2
  | _, Void => r1
  | _, _ => if decide (r1 = r2) then r1 else Alt r1 r2
  end.

Fixpoint deriv (c : ascii) (r : regex) : regex :=
  match r with
  | Void => Void
  | Eps => Void
  | Class k => if mem k c then Eps else Void
  | Cat r1 r2 =>
      if nullable r1
      then alt (cat (deriv c r1) r2) (deriv c r2)
      else cat (deriv c r1) r2
  | Alt r1 r2 => alt (deriv c r1) (deriv c r2)
  | Star r1 => cat (deriv c r1) (Star r1)
  end.

(** [/^r$/.test(s)] *)
Fixpoint test (r : regex) (s : list ascii) : bool :=
  match s with
  | [] => nullable r
  | c :: s' => test (deriv c r) s'
  end.

(** The language of a regular expression. *)
Inductive Matches : regex -> list ascii -> Prop :=
| MEps : Matches Eps []
| MClass k c : mem k c = true -> Matches (Class k) [c]
| MCat r1 r2 s1 s2 :
    Matches r1 s1 -> Matches r2 s2 -> Matches (Cat r1 r2) (s1 ++ s2)
| MAltL r1 r2 s : Matches r1 s -> Matches (Alt r1 r2) s
| MAltR r1 r2 s : Matches r2 s -> Matches (Alt r1 r2) s
| MStar0 r : Matches (Star r) []
| MStarS r s1 s2 :
    Matches r s1 -> Matches (Star r) s2 -> Matches (Star r) (s1 ++ s2).

End Re.

(** ** The module [Encoder] *)

Module Encoder.

(** *** Values *)

(** A JavaScript [Error]; only its message is ever read. *)
Record Error : Type := JsError { message : string }.

(** [interface Params] *)
Record Params : Type := mkParams {
  sourceUrl : option string;
  targetBucket : string;
  targetKey : string;
  accessKeyId : option string;
  accessSecret : option string
}.

(** [aws.s3.PutObjectRequest]; [Body] is [None] when the source passes
    [undefined]. *)
Record PutObjectRequest : Type := mkPut {
  Bucket : string;
  Key : string;
  Body : option string;
  ACL : string
}.

(** *** What the collaborators answer *)

(** What becomes of [response.pipe(file)]: the write stream emits
    [finish], or [pipe] throws, or [finish] never comes. *)
Inductive PipeOutcome : Type :=
| Finished
| PipeThrew (e : Error)
| Stalled.

(** [http.IncomingMessage] *)
Record IncomingMessage : Type := mkResponse {
  statusCode : Z;
  piped : PipeOutcome
}.

(** The events a [request] object emits, in order.  [Unhandled] is an
    error it emits while [request.get] sets it up, before [on] has
    attached a listener: the emitter throws it.  The library does so for
    a protocol it has no module for, [ftp:] among them. *)
Inductive RequestEvent : Type :=
| OnResponse (r : IncomingMessage)
| OnError (e : Error)
| Unhandled (e : Error).

(** How the [ffmpeg] process ends: exit code 0 with the output file
    written, or an error, with or without a partial output file. *)
Inductive ExecOutcome : Type :=
| ExecOk
| ExecFailed (e : Error) (partial : bool).

Record World : Type := mkWorld {
  (** the unique name [tmp.file] and [tmp.tmpName] come up with, short
      of its postfix, or their error *)
  tmp_file_stem : Error + string;
  tmp_name_stem : Error + string;
  (** [path.normalize] *)
  path_normalize : string -> string;
  http_get : string -> list RequestEvent;
  exec_file : string -> list string -> ExecOutcome;
  (** the content of an existing file, or the error of reading it *)
  read_file : string -> Error + string;
  put_object : PutObjectRequest -> option Error;
  (** the error with which the file system refuses to delete an
      existing file, if it does *)
  unlink_refused : string -> option Error
}.

(** *** The process *)

Inductive Event : Type :=
| TmpFile (postfix : string) (keep : bool)
| TmpName (postfix : string)
| CreateWriteStream (path : string)
| HttpGet (url : string)
| FileClose (path : string)
| ExecFile (cmd : string) (args : list string)
| Unlink (path : string)
| ReadFile (path : string)
| ConfigUpdate (accessKeyId secretAccessKey : option string)
| PutObject (req : PutObjectRequest)
| ConsoleError (msg : string)
| Uncaught (what : string)
| Called (err : option Error) (result : option string).

(** The files on disk, what the process did so far (oldest first), and
    whether an uncaught exception ended it.  The callbacks of the
    collaborators run one after the other, in the order in which the
    code is written; a deletion is carried out after the statements
    that follow its request (see [fs_unlink]). *)
Record State : Type := mkState {
  files : gset string;
  trace : list Event;
  crashed : bool
}.

Definition Proc : Type := State -> State.

(** [(err, result) => void] *)
Definition Callback : Type := option Error -> option string -> Proc.

Definition skip : Proc := fun st => st.

(** Statement sequencing; nothing runs after an uncaught exception. *)
Definition seq (a b : Proc) : Proc :=
  fun st =>
    match a st with
    | mkState _ _ true as st' => st'
    | mkState _ _ false as st' => b st'
    end.

Declare Scope proc_scope.
Notation "a ;; b" := (seq a b)
  (at level 100, b at level 200, right associativity) : proc_scope.
Local Open Scope proc_scope.

Definition emit (e : Event) : Proc :=
  fun st => mkState (files st) (trace st ++ [e]) (crashed st).

Definition throw (what : string) : Proc :=
  fun st => mkState (files st) (trace st ++ [Uncaught what]) true.

Definition create (p : string) : Proc :=
  fun st => mkState ({[p]} ∪ files st) (trace st) (crashed st).

Definition remove (p : string) : Proc :=
  fun st => mkState (files st ∖ {[p]}) (trace st) (crashed st).

(** A library call that throws a [TypeError] on [null]. *)
Definition need_string (what : string) (s : option string) (k : string -> Proc) : Proc :=
  match s with
  | Some s => k s
  | None => throw what
  end.

(** The callback a caller passes in: it records what it receives. *)
Definition report : Callback := fun err result => emit (Called err result).

Definition start (fs : gset string) : State := mkState fs [] false.

(** What the caller's callback received, call by call. *)
Fixpoint calls (t : list Event) : list (option Error * option string) :=
  match t with
  | [] => []
  | Called err result :: t' => (err, result) :: calls t'
  | _ :: t' => calls t'
  end.

(** *** Collaborators *)

Definition console_error (msg : string) : Proc := emit (ConsoleError msg).

Definition unique_name_error : Error :=
  JsError "Could not get a unique tmp filename, max tries reached".

Definition enoent (p : string) : Error :=
  JsError ("ENOENT: no such file or directory '" +:+ p +:+ "'").

(** The character occurs in the string. *)
Fixpoint contains (c : ascii) (s : string) : bool :=
  match s with
  | EmptyString => false
  | String a s' => Ascii.eqb a c || contains c s'
  end.

(** The name the [tmp] package settles on: the stem the world offers
    (directory, prefix and random part) with the postfix asked for,
    unless a file of that name exists.  A postfix with a slash in it
    puts the name in a directory that does not exist, where [tmp.file]
    cannot create its file; [tmp.tmpName] is only ever asked for
    [.mp3]. *)
Definition unique_name (stem : Error + string) (postfix : string)
    (fs : gset string) : Error + string :=
  match stem with
  | inl e => inl e
  | inr stem =>
      if contains "/" postfix then inl (enoent (stem +:+ postfix))
      else if decide (stem +:+ postfix ∈ fs) then inl unique_name_error
      else inr (stem +:+ postfix)
  end.

(** [tmp.tmpName(options, cb)]: a name that no file has. *)
Definition tmp_tmpName (w : World) (postfix : string)
    (cb : Error + string -> Proc) : Proc :=
  fun st =>
    cb (unique_name (tmp_name_stem w) postfix (files st))
       (emit (TmpName postfix) st).

(** [tmp.file(options, cb)]: the same, and the file is created. *)
Definition tmp_file (w : World) (postfix : string) (keep : bool)
    (cb : Error + string -> Proc) : Proc :=
  fun st =>
    let st1 := emit (TmpFile postfix keep) st in
    match unique_name (tmp_file_stem w) postfix (files st) with
    | inl e => cb (inl e) st1
    | inr name => cb (inr name) (create name st1)
    end.

(** [fs.createWriteStream(path)] *)
Definition fs_createWriteStream (path : option string) (k : string -> Proc) : Proc :=
  need_string "fs.createWriteStream" path
    (fun p => emit (CreateWriteStream p) ;; create p ;; k p).

(** What [fs.unlink(path, cb)] does when its turn has come: the file
    is deleted and [cb] hears of it. *)
Definition fs_unlink_done (w : World) (path : string)
    (cb : option Error -> Proc) : Proc :=
  fun st =>
    if decide (path ∈ files st) then
      match unlink_refused w path with
      | Some e => cb (Some e) st
      | None => cb None (remove path st)
      end
    else cb (Some (enoent path)) st.

(** [fs.unlink(path, cb); rest]: the call only issues the request and
    returns.  Node carries the deletion out on a thread of its own, at
    some time after the call, and runs [cb] in a later turn of the event
    loop, never before the statements after the call, [rest], are
    through.  Here the deletion and [cb] come together, after [rest]
    and all it sets going; among the deletions that are pending the one
    asked for last comes first (Node fixes no order among them). *)
Definition fs_unlink (w : World) (path : string) (cb : option Error -> Proc)
    (rest : Proc) : Proc :=
  emit (Unlink path) ;; rest ;; fs_unlink_done w path cb.

(** [fs.readFile(path, options, cb)]; [cb] gets [undefined] data with
    an error. *)
Definition fs_readFile (w : World) (path : string)
    (cb : option Error -> option string -> Proc) : Proc :=
  fun st =>
    let st1 := emit (ReadFile path) st in
    if decide (path ∈ files st) then
      match read_file w path with
      | inl e => cb (Some e) None st1
      | inr data => cb None (Some data) st1
      end
    else cb (Some (enoent path)) None st1.

(** [cprocess.execFile(cmd, args, cb)]; the encoder writes the file its
    last argument names. *)
Definition cprocess_execFile (w : World) (cmd : string) (args : list string)
    (cb : option Error -> Proc) : Proc :=
  emit (ExecFile cmd args) ;;
  match exec_file w cmd args with
  | ExecOk => create (List.last args "") ;; cb None
  | ExecFailed e partial =>
      (if partial then create (List.last args "") else skip) ;; cb (Some e)
  end.

(** [request.get(url).on("response", f).on("error", g)] *)
Definition request_get (w : World) (url : string)
    (onResponse : IncomingMessage -> Proc) (onError : Error -> Proc) : Proc :=
  emit (HttpGet url) ;;
  fold_right
    (fun ev rest =>
       match ev with
       | OnResponse r => onResponse r
       | OnError e => onError e
       | Unhandled e => throw ("request.get: " +:+ message e)
       end ;; rest)
    skip (http_get w url).

(** [new aws.S3().putObject(params, cb)] *)
Definition s3_putObject (w : World) (params : PutObjectRequest)
    (cb : option Error -> Proc) : Proc :=
  emit (PutObject params) ;; cb (put_object w params).

(** [aws.config.update({accessKeyId, secretAccessKey})] *)
Definition aws_config_update (id secret : option string) : Proc :=
  emit (ConfigUpdate id secret).

(** *** The functions of the module, bottom up *)

Definition urlForKey (bucket key : string) : string :=
  "https://s3.amazonaws.com/" +:+ bucket +:+ "/" +:+ key.

Definition getExtension (url : option string) (fallback : string) : string :=
  let extension :=
    if Js.truthy url
    then Js.substr (Js.show url) (Js.lastIndexOf (Js.show url) ".")
    else "" in
  if (String.length extension =? 0)%nat then fallback else extension.

(** The literal of [isWebUrl], between its [^] and [$], piece by piece
    in the order it is written. *)

(** [((http[s]?|ftp):\/{2})] *)
Definition re_scheme : Re.regex :=
  Re.Cat (Re.Alt (Re.Cat (Re.lit "http") (Re.opt (Re.chr "s"))) (Re.lit "ftp"))
         (Re.Cat (Re.chr ":") (Re.Cat (Re.chr "/") (Re.chr "/"))).

(** [([\w-]+\.)+] *)
Definition re_labels : Re.regex :=
  Re.plus (Re.Cat (Re.plus (Re.Class Re.WordDash)) (Re.chr ".")).

(** [(\w+)] *)
Definition re_tld : Re.regex := Re.plus (Re.Class Re.Word).

(** [(:\d{1,5})?] *)
Definition re_port : Re.regex :=
  Re.opt (Re.Cat (Re.chr ":") (Re.upto5 (Re.Class Re.Digit))).

(** [\/?] *)
Definition re_slash : Re.regex := Re.opt (Re.chr "/").

(** [(\w*\/?)*] *)
Definition re_segments : Re.regex :=
  Re.Star (Re.Cat (Re.Star (Re.Class Re.Word)) (Re.opt (Re.chr "/"))).

(** [( \.\w* )?] *)
Definition re_extension : Re.regex :=
  Re.opt (Re.Cat (Re.chr ".") (Re.Star (Re.Class Re.Word))).

(** [( \??.* )] *)
Definition re_query : Re.regex :=
  Re.Cat (Re.opt (Re.chr "?")) (Re.Star (Re.Class Re.Any)).

Definition web_url_re : Re.regex :=
  Re.Cat re_scheme
    (Re.Cat re_labels
       (Re.Cat re_tld
          (Re.Cat re_port
             (Re.Cat re_slash
                (Re.Cat re_segments (Re.Cat re_extension re_query)))))).

Definition isWebUrl (url : option string) : bool :=
  if negb (Js.truthy url) then false
  else Re.test web_url_re (list_ascii_of_string (Js.show url)).

Definition networkGet (w : World) (fileUrl : option string)
    (callback : IncomingMessage -> Proc)
    (errorCallback : option Error -> Proc) : Proc :=
  if isWebUrl fileUrl then
    request_get w (Js.show fileUrl) callback (fun e => errorCallback (Some e))
  else
    errorCallback
      (Some (JsError ("The url " +:+ Js.show fileUrl +:+ " is not a supported URI."))).

Definition saveTempFile (w : World) (fileUrl : option string)
    (callback : Callback) : Proc :=
  let postfix := getExtension fileUrl ".tmp" in
  tmp_file w (getExtension fileUrl ".tmp") true (fun r =>
    (* [err] is not looked at; [inputPath] is undefined with an error *)
    let inputPath := match r with inl _ => None | inr p => Some p end in
    fs_createWriteStream inputPath (fun file =>
      let positive (response : IncomingMessage) : Proc :=
        if statusCode response =? 200 then
          match piped response with
          | Finished => emit (FileClose file) ;; callback None inputPath
          | PipeThrew e =>
              console_error ("Error thrown: " +:+ message e) ;;
              callback (Some e) None
          | Stalled => skip
          end
        else
          callback
            (Some (JsError ("Could not retrieve file from " +:+ Js.show fileUrl)))
            None in
      let negative (error : option Error) : Proc :=
        match error with
        | Some e => console_error ("Error thrown: " +:+ message e)
        | None => skip
        end ;;
        callback error None in
      networkGet w fileUrl positive negative)).

Definition convertFile (w : World) (inputFile : string)
    (callback : Callback) : Proc :=
  let normalizedPath := path_normalize w inputFile in
  tmp_tmpName w ".mp3" (fun r =>
    match r with
    | inl error => callback (Some error) None
    | inr outputPath =>
        cprocess_execFile w "ffmpeg"
          ["-i"; normalizedPath; "-codec:a"; "libmp3lame"; "-b:a"; "48k";
           "-ar"; "16000"; "-af"; "volume=3"; outputPath]
          (fun error =>
             (* the variable [outputPath] once [outputPath = null] has run *)
             let outputPath' :=
               match error with Some _ => None | None => Some outputPath end in
             let rest : Proc :=
               match error with
               | Some e => console_error ("Error thrown: " +:+ message e)
               | None => skip
               end ;;
               let error' :=
                 match error with
                 | Some _ => Some (JsError "Unable to encode the file to mp3.")
                 | None => None
                 end in
               callback error' outputPath' in
             match error with
             | Some _ =>
                 fs_unlink w outputPath (fun error =>
                   match error with
                   | Some e =>
                       (* the closure reads the variable when it runs *)
                       console_error
                         ("Unable to delete " +:+ Js.show outputPath'
                          +:+ ". Full error: " +:+ message e)
                   | None => skip
                   end) rest
             | None => rest
             end)
    end).

Definition downloadAndEncode (w : World) (sourceUrl : option string)
    (callback : Callback) : Proc :=
  saveTempFile w sourceUrl (fun error fileUri =>
    match error with
    | Some e =>
        callback
          (Some (JsError ("Unable to download and save file at path "
                          +:+ Js.show sourceUrl +:+ ". Error: " +:+ message e)))
          None
    | None =>
        need_string "path.normalize" fileUri (fun fileUri =>
          convertFile w fileUri (fun error outputPath =>
            fs_unlink w fileUri (fun err =>
              match err with
              | Some e =>
                  console_error
                    ("Unable to delete file " +:+ fileUri +:+ ". Error message: "
                     +:+ message e)
              | None => skip
              end)
              (callback error outputPath)))
    end).

Definition sendOffToBucket (w : World) (fileUri bucket itemKey : string)
    (callback : Callback) : Proc :=
  fs_readFile w fileUri (fun err data =>
    (* [err] is not looked at *)
    let params := mkPut bucket itemKey data "public-read" in
    s3_putObject w params (fun err =>
      match err with
      | Some _ => callback err None
      | None =>
          let url := urlForKey bucket itemKey in
          callback err (Some url)
      end)).

Definition encode (w : World) (params : Params) (callback : Callback) : Proc :=
  downloadAndEncode w (sourceUrl params) (fun err mp3file =>
    match err with
    | Some _ => callback err None
    | None =>
        aws_config_update (accessKeyId params) (accessSecret params) ;;
        need_string "fs.readFile" mp3file (fun mp3file =>
          sendOffToBucket w mp3file (targetBucket params) (targetKey params)
            (fun err url =>
               fs_unlink w mp3file (fun err =>
                 match err with
                 | Some e =>
                     console_error
                       ("Unable to delete mp3 file " +:+ mp3file
                        +:+ ". Err message: " +:+ message e)
                 | None => skip
                 end)
                 (callback err url)))
    end).

(** *** Vocabulary of the statements *)

(** The subprocesses the process started, in order. *)
Fixpoint execs (t : list Event) : list (string * list string) :=
  match t with
  | [] => []
  | ExecFile cmd args :: t' => (cmd, args) :: execs t'
  | _ :: t' => execs t'
  end.

(** Exactly one of the two arguments of a callback is non-null. *)
Definition exactly_one (call : option Error * option string) : Prop :=
  match call with
  | (Some _, None) | (None, Some _) => True
  | _ => False
  end.

(** Every call of the caller's callback so far satisfies [P]. *)
Definition Inv (P : option Error * option string -> Prop) (st : State) : Prop :=
  Forall P (calls (trace st)).

Definition Keeps (P : option Error * option string -> Prop) (k : Proc) : Prop :=
  forall st, Inv P st -> Inv P (k st).

(** A URL [scheme://rest] as RFC 3986 reads it: the authority is what
    [rest] has before the first [/], [?] or [#]; user information, when
    there is any, ends at the last [@] of the authority; the host is
    what follows, up to the [:] of the port. *)
Definition authority_end (c : ascii) : bool :=
  Ascii.eqb c "/" || Ascii.eqb c "?" || Ascii.eqb c "#".

Fixpoint authority (rest : string) : string :=
  match rest with
  | EmptyString => EmptyString
  | String c rest' =>
      if authority_end c then EmptyString else String c (authority rest')
  end.

(** What follows the last [c] of the string; the string when it has
    none. *)
Fixpoint after_last (c : ascii) (s : string) : string :=
  match s with
  | EmptyString => EmptyString
  | String a s' =>
      if contains c s' then after_last c s'
      else if Ascii.eqb a c then s' else s
  end.

Fixpoint before_first (c : ascii) (s : string) : string :=
  match s with
  | EmptyString => EmptyString
  | String a s' => if Ascii.eqb a c then EmptyString else String a (before_first c s')
  end.

Definition url_host (rest : string) : string :=
  before_first ":" (after_last "@" (authority rest)).

(** What [rest] has before the first of [:], [/], [?] and [#]: the host
    when there is no user information, and otherwise the start of the
    user information. *)
Definition delimiter (c : ascii) : bool := Ascii.eqb c ":" || authority_end c.

Fixpoint before_delimiter (rest : string) : string :=
  match rest with
  | EmptyString => EmptyString
  | String c rest' =>
      if delimiter c then EmptyString else String c (before_delimiter rest')
  end.

Fixpoint has_dot (s : string) : bool :=
  match s with
  | EmptyString => false
  | String c s' => Ascii.eqb c "." || has_dot s'
  end.

(** The schemes the literal of [isWebUrl] names. *)
Definition is_web_scheme (scheme : string) : bool :=
  String.eqb scheme "http" || String.eqb scheme "https" || String.eqb scheme "ftp".

(** The message with which the pipeline rejects a source that is not a
    web URL. *)
Definition unsupported (sourceUrl : option string) : Error :=
  JsError ("Unable to download and save file at path " +:+ Js.show sourceUrl
           +:+ ". Error: The url " +:+ Js.show sourceUrl
           +:+ " is not a supported URI.").

(** Why a download failed, as [saveTempFile] words it. *)
Definition download_failure (sourceUrl : option string) (ev : RequestEvent) : string :=
  match ev with
  | OnError e | Unhandled e => message e
  | OnResponse _ => "Could not retrieve file from " +:+ Js.show sourceUrl
  end.

(** *** The helper no function calls *)

Definition stripQueryAndFragments (url : option string) : option string :=
  if Js.truthy url
  then Some (Js.substr_len (Js.show url) 0 (Js.indexOf (Js.show url) "?"))
  else url.

(** *** More vocabulary *)

(** Every character of the string is in the class. *)
Fixpoint all_chars (p : ascii -> bool) (s : string) : bool :=
  match s with
  | EmptyString => true
  | String a s' => p a && all_chars p s'
  end.

(** A non-empty run of [[\w-]]. *)
Definition is_label (l : string) : bool :=
  match l with
  | EmptyString => false
  | String _ _ => all_chars Re.word_or_dash l
  end.

(** The labels, each followed by a dot. *)
Fixpoint dotted (labels : list string) : string :=
  match labels with
  | [] => EmptyString
  | l :: labels' => l +:+ "." +:+ dotted labels'
  end.

(** No class of the expression accepts a line terminator. *)
Definition one_line_cls (k : Re.cls) : bool :=
  match k with
  | Re.Chr a => Re.any a
  | _ => true
  end.

Fixpoint one_line_re (r : Re.regex) : bool :=
  match r with
  | Re.Void | Re.Eps => true
  | Re.Class k => one_line_cls k
  | Re.Cat r1 r2 | Re.Alt r1 r2 => one_line_re r1 && one_line_re r2
  | Re.Star r1 => one_line_re r1
  end.

(** The requests that went to the store, in order. *)
Fixpoint puts (t : list Event) : list PutObjectRequest :=
  match t with
  | [] => []
  | PutObject req :: t' => req :: puts t'
  | _ :: t' => puts t'
  end.

(** A non-empty run of [[\w-]], as a list of characters. *)
Definition label_ok (l : list ascii) : Prop :=
  l <> [] /\ Forall (fun c => Re.word_or_dash c = true) l.

(** The one name [tmp.file] can make up for the download of the
    request: the stem of the world and the extension of the source,
    which has no slash in it. *)
Definition input_name (w : World) (params : Params) (p : string) : Prop :=
  exists stem,
    tmp_file_stem w = inr stem /\
    contains "/" (getExtension (sourceUrl params) ".tmp") = false /\
    p = stem +:+ getExtension (sourceUrl params) ".tmp".

(** The one name [tmp.tmpName] can make up for the result. *)
Definition output_name (w : World) (p : string) : Prop :=
  exists stem, tmp_name_stem w = inr stem /\ p = stem +:+ ".mp3".

(** What a request may do: ask [tmp] for a file with the extension of
    the source and for an [.mp3] name, get the source when [isWebUrl]
    accepts it, run [ffmpeg] with the fixed profile from the download
    to the result, write and close the download, read the result,
    delete the one and the other, set the credentials of the request,
    and put an object with the bucket and key of the request, readable
    by all. *)
Definition allowed (w : World) (params : Params) (e : Event) : Prop :=
  match e with
  | TmpFile postfix keep =>
      postfix = getExtension (sourceUrl params) ".tmp" /\ keep = true
  | TmpName postfix => postfix = ".mp3"
  | HttpGet url => sourceUrl params = Some url /\ isWebUrl (Some url) = true
  | ExecFile cmd args =>
      cmd = "ffmpeg" /\
      exists input output,
        input_name w params input /\ output_name w output /\
        args = ["-i"; path_normalize w input; "-codec:a"; "libmp3lame"; "-b:a";
                "48k"; "-ar"; "16000"; "-af"; "volume=3"; output]
  | CreateWriteStream path | FileClose path => input_name w params path
  | ReadFile path => output_name w path
  | Unlink path => input_name w params path \/ output_name w path
  | ConfigUpdate id secret =>
      id = accessKeyId params /\ secret = accessSecret params
  | PutObject req =>
      Bucket req = targetBucket params /\ Key req = targetKey params /\
      ACL req = "public-read"
  | ConsoleError _ | Uncaught _ | Called _ _ => True
  end.

(** Every event so far satisfies [Q], and still does after [k]. *)
Definition Within (Q : Event -> Prop) (k : Proc) : Prop :=
  forall st, Forall Q (trace st) -> Forall Q (trace (k st)).

End Encoder.

(** ** Concrete worlds

    The worlds and requests at which the statements below are
    instantiated. *)

Module Scenario.
Import Encoder.

Definition world (events : list RequestEvent) (exec : ExecOutcome)
    (read : Error + string) (put : option Error) : World :=
  mkWorld (inr "/tmp/in") (inr "/tmp/out") (fun p => p)
    (fun _ => events) (fun _ _ => exec) (fun _ => read) (fun _ => put)
    (fun _ => None).

Definition served : list RequestEvent := [OnResponse (mkResponse 200 Finished)].

(** Everything works. *)
Definition happy : World := world served ExecOk (inr "ID3") None.

(** The server answers 404. *)
Definition missing : World :=
  world [OnResponse (mkResponse 404 Stalled)] ExecOk (inr "ID3") None.

(** The encoder fails and leaves a partial file behind. *)
Definition corrupt : World :=
  world served (ExecFailed (JsError "Command failed: ffmpeg") true) (inr "ID3") None.

(** The file cannot be read and the store rejects the credentials. *)
Definition unreadable : World :=
  world served ExecOk (inl (JsError "EACCES: permission denied"))
    (Some (JsError "InvalidAccessKeyId")).

Definition request (url : string) : Params :=
  mkParams (Some url) "bespoken/encoder/test" "testKey.mp3" None None.

(** [tmp.file] cannot create its file. *)
Definition no_tmp : World :=
  mkWorld (inl (JsError "ENOENT: no such file or directory")) (inr "/tmp/out")
    (fun p => p) (fun _ => served) (fun _ _ => ExecOk) (fun _ => inr "ID3")
    (fun _ => None) (fun _ => None).

(** The server answers 404 and the connection then breaks. *)
Definition flaky : World :=
  world [OnResponse (mkResponse 404 Stalled); OnError (JsError "ECONNRESET")]
    ExecOk (inr "ID3") None.

(** The body of the response cannot be piped to the file. *)
Definition unpiped : World :=
  world [OnResponse (mkResponse 200 (PipeThrew (JsError "EPIPE")))]
    ExecOk (inr "ID3") None.

(** The store rejects the credentials. *)
Definition denied : World :=
  world served ExecOk (inr "ID3") (Some (JsError "InvalidAccessKeyId")).

(** The request library has no module for the protocol of the URL. *)
Definition unspoken : World :=
  world [Unhandled (JsError "Invalid protocol: ftp:")] ExecOk (inr "ID3") None.

End Scenario.

(** * Facts *)

(** ** The matcher decides the language *)

Module ReFacts.
Import Re.

Lemma matches_void s : Matches Void s -> False.
Proof. inversion 1. Qed.

Lemma matches_eps s : Matches Eps s -> s = [].
Proof. now inversion 1. Qed.

Lemma matches_class k s :
  Matches (Class k) s -> exists c, s = [c] /\ mem k c = true.
Proof. inversion 1; subst; eauto. Qed.

Lemma matches_cat r1 r2 s :
  Matches (Cat r1 r2) s ->
  exists s1 s2, s = s1 ++ s2 /\ Matches r1 s1 /\ Matches r2 s2.
Proof. inversion 1; subst; eauto. Qed.

Lemma matches_alt r1 r2 s :
  Matches (Alt r1 r2) s -> Matches r1 s \/ Matches r2 s.
Proof. inversion 1; subst; eauto. Qed.

(** A non-empty match of [r*] starts with a non-empty match of [r]. *)
Lemma matches_star_cons r c s :
  Matches (Star r) (c :: s) ->
  exists s1 s2, s = s1 ++ s2 /\ Matches r (c :: s1) /\ Matches (Star r) s2.
Proof.
  intros H. remember (Star r) as r' eqn:Er. remember (c :: s) as t eqn:Et.
  revert s Et.
  induction H as [| | | | | |r0 u1 u2 H1 _ H2 IH2]; intros v Et; try discriminate.
  injection Er as ->.
  destruct u1 as [|a u1]; simpl in Et.
  - apply IH2; auto.
  - injection Et as -> <-. eauto.
Qed.

Lemma nullable_spec r : nullable r = true <-> Matches r [].
Proof.
  induction r as [| |k|r1 IH1 r2 IH2|r1 IH1 r2 IH2|r IH]; simpl.
  - split; [discriminate | intros H; destruct (matches_void _ H)].
  - split; [constructor | reflexivity].
  - split; [discriminate |].
    intros H. apply matches_class in H as (c & E & _). discriminate.
  - rewrite andb_true_iff, IH1, IH2. split.
    + intros [H1 H2]. apply (MCat _ _ [] []); assumption.
    + intros H. apply matches_cat in H as (s1 & s2 & E & H1 & H2).
      symmetry in E. apply app_eq_nil in E as [-> ->]. auto.
  - rewrite orb_true_iff, IH1, IH2. split.
    + intros [H|H]; [apply MAltL | apply MAltR]; assumption.
    + apply matches_alt.
  - split; [constructor | reflexivity].
Qed.

Lemma cat_spec r1 r2 s : Matches (cat r1 r2) s <-> Matches (Cat r1 r2) s.
Proof.
  split.
  - intros H.
    destruct r1; simpl in H;
      try (destruct (matches_void _ H));
      destruct r2; simpl in H;
      try (destruct (matches_void _ H));
      try assumption;
      (apply (MCat Eps _ [] s); [constructor | assumption]).
  - intros H. apply matches_cat in H as (s1 & s2 & -> & H1 & H2).
    destruct r1; simpl;
      try (destruct (matches_void _ H1));
      destruct r2; simpl;
      try (destruct (matches_void _ H2));
      try (apply matches_eps in H1 as ->; simpl; assumption);
      constructor; assumption.
Qed.

Lemma alt_spec r1 r2 s : Matches (alt r1 r2) s <-> Matches (Alt r1 r2) s.
Proof.
  split.
  - intros H.
    destruct r1; simpl in H;
      try (apply MAltR; assumption);
      destruct r2; simpl in H;
      try (apply MAltL; assumption);
      try assumption;
      (case_decide; [apply MAltL; assumption | assumption]).
  - intros H. apply matches_alt in H as [H|H].
    + destruct r1; simpl;
        try (destruct (matches_void _ H));
        destruct r2; simpl;
        try assumption;
        try (apply MAltL; assumption);
        (case_decide; [assumption | apply MAltL; assumption]).
    + destruct r1; simpl;
        try assumption;
        destruct r2; simpl;
        try (destruct (matches_void _ H));
        try assumption;
        try (apply MAltR; assumption);
        (case_decide; [simplify_eq; assumption | apply MAltR; assumption]).
Qed.

Lemma deriv_spec c r s : Matches (deriv c r) s <-> Matches r (c :: s).
Proof.
  revert s.
  induction r as [| |k|r1 IH1 r2 IH2|r1 IH1 r2 IH2|r IH]; intros s; simpl.
  - split; intros H; destruct (matches_void _ H).
  - split; intros H; [destruct (matches_void _ H)|].
    apply matches_eps in H. discriminate.
  - destruct (mem k c) eqn:Ek; split; intros H.
    + apply matches_eps in H as ->. constructor; assumption.
    + apply matches_class in H as (c' & E & _). injection E as _ ->. constructor.
    + destruct (matches_void _ H).
    + apply matches_class in H as (c' & E & Hc). injection E as -> _. congruence.
  - destruct (nullable r1) eqn:En.
    + rewrite alt_spec. split.
      * intros H. apply matches_alt in H as [H|H].
        -- apply cat_spec, matches_cat in H as (s1 & s2 & -> & H1 & H2).
           apply IH1 in H1. apply (MCat _ _ (c :: s1) s2); assumption.
        -- apply IH2 in H. apply nullable_spec in En.
           apply (MCat _ _ [] (c :: s)); assumption.
      * intros H. apply matches_cat in H as (s1 & s2 & E & H1 & H2).
        destruct s1 as [|a s1]; simpl in E.
        -- subst s2. apply MAltR, IH2; assumption.
        -- injection E as <- ->. apply MAltL, cat_spec.
           constructor; [apply IH1|]; assumption.
    + rewrite cat_spec. split.
      * intros H. apply matches_cat in H as (s1 & s2 & -> & H1 & H2).
        apply IH1 in H1. apply (MCat _ _ (c :: s1) s2); assumption.
      * intros H. apply matches_cat in H as (s1 & s2 & E & H1 & H2).
        destruct s1 as [|a s1]; simpl in E.
        -- apply nullable_spec in H1. congruence.
        -- injection E as <- ->. constructor; [apply IH1|]; assumption.
  - rewrite alt_spec. split.
    + intros H. apply matches_alt in H as [H|H];
        [apply MAltL, IH1 | apply MAltR, IH2]; assumption.
    + intros H. apply matches_alt in H as [H|H];
        [apply MAltL, IH1 | apply MAltR, IH2]; assumption.
  - rewrite cat_spec. split.
    + intros H. apply matches_cat in H as (s1 & s2 & -> & H1 & H2).
      apply IH in H1. apply (MStarS _ (c :: s1) s2); assumption.
    + intros H. apply matches_star_cons in H as (s1 & s2 & -> & H1 & H2).
      constructor; [apply IH|]; assumption.
Qed.

(** [test] accepts exactly the strings of the language. *)
Theorem test_spec r s : test r s = true <-> Matches r s.
Proof.
  revert r. induction s as [|c s IH]; intros r; simpl.
  - apply nullable_spec.
  - rewrite IH. apply deriv_spec.
Qed.

End ReFacts.

(** ** What [isWebUrl] accepts *)

Module UrlFacts.
Import Re ReFacts Encoder.

Lemma list_ascii_of_string_app a b :
  list_ascii_of_string (a +:+ b) = list_ascii_of_string a ++ list_ascii_of_string b.
Proof. induction a as [|c a IH]; simpl; [reflexivity | now rewrite IH]. Qed.

Lemma matches_chr a l : Matches (chr a) l -> l = [a].
Proof.
  intros H. apply matches_class in H as (c & -> & Hc).
  simpl in Hc. apply Ascii.eqb_eq in Hc. now subst.
Qed.

Lemma matches_lit s l : Matches (lit s) l -> l = list_ascii_of_string s.
Proof.
  revert l. induction s as [|a s IH]; simpl; intros l H.
  - now apply matches_eps.
  - apply matches_cat in H as (l1 & l2 & -> & H1 & H2).
    apply matches_chr in H1 as ->. apply IH in H2 as ->. reflexivity.
Qed.

Lemma matches_star_class k l :
  Matches (Star (Class k)) l -> Forall (fun c => mem k c = true) l.
Proof.
  intros H. remember (Star (Class k)) as r eqn:Er.
  induction H as [| | | | | |r0 l1 l2 H1 _ H2 IH2]; try discriminate.
  - constructor.
  - injection Er as ->. apply matches_class in H1 as (c & -> & Hc).
    constructor; [exact Hc | apply IH2; reflexivity].
Qed.

(** The three ways to match [((http[s]?|ftp):\/{2})]. *)
Lemma matches_scheme l :
  Matches re_scheme l ->
  l = list_ascii_of_string "http://" \/ l = list_ascii_of_string "https://"
  \/ l = list_ascii_of_string "ftp://".
Proof.
  intros H. apply matches_cat in H as (l1 & l2 & -> & H1 & H2).
  apply matches_cat in H2 as (c1 & l5 & -> & Hc1 & H2).
  apply matches_cat in H2 as (c2 & c3 & -> & Hc2 & Hc3).
  apply matches_chr in Hc1 as ->. apply matches_chr in Hc2 as ->.
  apply matches_chr in Hc3 as ->.
  apply matches_alt in H1 as [H1|H1].
  - apply matches_cat in H1 as (l3 & l4 & -> & H3 & H4).
    apply (matches_lit "http") in H3 as ->.
    apply matches_alt in H4 as [H4|H4].
    + apply matches_chr in H4 as ->. right. left. reflexivity.
    + apply matches_eps in H4 as ->. left. reflexivity.
  - apply (matches_lit "ftp") in H1 as ->. right. right. reflexivity.
Qed.

(** A match of [([\w-]+\.)+] starts with a non-empty run of [[\w-]]
    and a dot. *)
Lemma matches_labels l :
  Matches re_labels l ->
  exists c label rest,
    l = c :: label ++ "."%char :: rest /\
    Forall (fun c => word_or_dash c = true) (c :: label).
Proof.
  intros H. apply matches_cat in H as (l1 & l2 & -> & H1 & _).
  apply matches_cat in H1 as (l3 & l4 & -> & H3 & H4).
  apply matches_chr in H4 as ->.
  apply matches_cat in H3 as (l5 & l6 & -> & H5 & H6).
  apply matches_class in H5 as (c & -> & Hc).
  apply matches_star_class in H6.
  exists c, l6, l2. split.
  - simpl. rewrite <- !app_assoc. reflexivity.
  - constructor; assumption.
Qed.

(** Every string [isWebUrl] accepts is one of the three schemes, a
    non-empty run of [[\w-]], a dot, and more. *)
Lemma web_url_shape l :
  Re.test web_url_re l = true ->
  exists scheme c label rest,
    l = list_ascii_of_string (scheme +:+ "://") ++ c :: label ++ "."%char :: rest /\
    is_web_scheme scheme = true /\
    Forall (fun c => word_or_dash c = true) (c :: label).
Proof.
  intros H. apply test_spec in H.
  apply matches_cat in H as (l1 & l2 & -> & H1 & H2).
  apply matches_cat in H2 as (l3 & l4 & -> & H3 & _).
  apply matches_labels in H3 as (c & label & rest & -> & Hl).
  apply matches_scheme in H1 as [-> | [-> | ->]].
  - exists "http", c, label, (rest ++ l4). repeat split; [|exact Hl].
    simpl. rewrite <- !app_assoc. reflexivity.
  - exists "https", c, label, (rest ++ l4). repeat split; [|exact Hl].
    simpl. rewrite <- !app_assoc. reflexivity.
  - exists "ftp", c, label, (rest ++ l4). repeat split; [|exact Hl].
    simpl. rewrite <- !app_assoc. reflexivity.
Qed.

Lemma word_or_dash_in_host c :
  word_or_dash c = true -> delimiter c = false /\ Ascii.eqb c "." = false.
Proof.
  destruct c as [[] [] [] [] [] [] [] []]; vm_compute; intros H;
    (discriminate H || (split; reflexivity)).
Qed.

(** A run of [[\w-]] and a dot at the start of [rest] come before its
    first delimiter. *)
Lemma host_has_dot label rest tail :
  Forall (fun c => word_or_dash c = true) label ->
  list_ascii_of_string rest = label ++ "."%char :: tail ->
  has_dot (before_delimiter rest) = true.
Proof.
  intros Hl. revert rest.
  induction Hl as [|c label Hc _ IH]; intros rest E.
  - destruct rest as [|a rest]; [discriminate|]. simpl in E.
    injection E as -> _. reflexivity.
  - destruct rest as [|a rest]; [discriminate|]. simpl in E.
    injection E as -> E. apply word_or_dash_in_host in Hc as [Hend _].
    simpl. rewrite Hend. simpl. rewrite (IH _ E). apply orb_true_r.
Qed.

Lemma is_web_scheme_cases scheme :
  is_web_scheme scheme = true ->
  scheme = "http" \/ scheme = "https" \/ scheme = "ftp".
Proof.
  unfold is_web_scheme. rewrite !orb_true_iff, !String.eqb_eq. tauto.
Qed.

(** An accepted URL has a dot after [://], before the first of [:],
    [/], [?] and [#]. *)
Lemma accepted_host_has_dot scheme rest :
  is_web_scheme scheme = true ->
  isWebUrl (Some (scheme +:+ "://" +:+ rest)) = true ->
  has_dot (before_delimiter rest) = true.
Proof.
  intros Hs H. unfold isWebUrl in H.
  destruct (negb _); [discriminate|]. simpl Js.show in H.
  apply web_url_shape in H as (scheme' & c & label & tail & E & Hs' & Hl).
  rewrite !list_ascii_of_string_app in E.
  apply (host_has_dot (c :: label) rest tail Hl).
  apply is_web_scheme_cases in Hs as [-> | [-> | ->]];
    apply is_web_scheme_cases in Hs' as [-> | [-> | ->]];
    simpl in *; congruence.
Qed.

Lemma after_last_absent c s : contains c s = false -> after_last c s = s.
Proof.
  destruct s as [|a s]; simpl; [reflexivity|].
  intros H. apply orb_false_iff in H as [Ha Hs]. now rewrite Hs, Ha.
Qed.

Lemma before_port rest : before_first ":" (authority rest) = before_delimiter rest.
Proof.
  induction rest as [|a rest IH]; simpl; [reflexivity|].
  unfold delimiter. destruct (authority_end a); simpl.
  - rewrite orb_true_r. reflexivity.
  - rewrite orb_false_r, IH. reflexivity.
Qed.

(** Without user information the host is what comes before the first
    delimiter. *)
Lemma host_without_userinfo rest :
  contains "@" (authority rest) = false -> url_host rest = before_delimiter rest.
Proof.
  intros H. unfold url_host. rewrite (after_last_absent _ _ H). apply before_port.
Qed.

End UrlFacts.

(** ** What [getExtension] answers *)

Module ExtensionFacts.
Import Encoder.


Lemma length_append a b :
  String.length (a +:+ b) = (String.length a + String.length b)%nat.
Proof. induction a as [|c a IH]; simpl; [reflexivity | now rewrite IH]. Qed.

Lemma has_dot_append a b : has_dot (a +:+ b) = has_dot a || has_dot b.
Proof.
  induction a as [|c a IH]; simpl; [reflexivity|].
  rewrite IH. apply orb_assoc.
Qed.

Lemma substring_skip a m b :
  String.substring (String.length a) m (a +:+ b) = String.substring 0 m b.
Proof. induction a as [|c a IH]; simpl; [reflexivity | exact IH]. Qed.

Lemma substring_all s : String.substring 0 (String.length s) s = s.
Proof. induction s as [|c s IH]; simpl; [reflexivity | now rewrite IH]. Qed.

Lemma lastIndexOf_from_no_dot s i acc :
  has_dot s = false -> Js.lastIndexOf_from s "." i acc = acc.
Proof.
  revert i acc. induction s as [|c s IH]; simpl; intros i acc H; [reflexivity|].
  apply orb_false_iff in H as [Hc Hs]. rewrite Hc. apply IH, Hs.
Qed.

Lemma lastIndexOf_from_append a b c i acc :
  Js.lastIndexOf_from (a +:+ b) c i acc =
  Js.lastIndexOf_from b c (i + Z.of_nat (String.length a)) (Js.lastIndexOf_from a c i acc).
Proof.
  revert i acc. induction a as [|x a IH]; simpl String.length; intros i acc.
  - simpl. f_equal. lia.
  - simpl. rewrite IH. f_equal. lia.
Qed.

(** The index of the last dot. *)
Lemma lastIndexOf_last_dot before after :
  has_dot after = false ->
  Js.lastIndexOf (before +:+ String "." after) "." = Z.of_nat (String.length before).
Proof.
  intros H. unfold Js.lastIndexOf. rewrite lastIndexOf_from_append. simpl.
  apply lastIndexOf_from_no_dot, H.
Qed.

Lemma truthy_append a c b : Js.truthy (Some (a +:+ String c b)) = true.
Proof. destruct a; reflexivity. Qed.

(** X4. For a URL with a dot [getExtension] answers the text from the
    last dot of the whole string on, the dot included, wherever that
    dot stands: in the path, in the host or in the query. *)
Lemma getExtension_from_last_dot before after fallback :
  has_dot after = false ->
  getExtension (Some (before +:+ String "." after)) fallback = String "." after.
Proof.
  intros H. unfold getExtension. rewrite truthy_append. simpl Js.show.
  rewrite (lastIndexOf_last_dot _ _ H). unfold Js.substr.
  rewrite length_append.
  replace (Z.of_nat (String.length before) <? 0) with false by (symmetry; apply Z.ltb_ge; lia).
  rewrite Z.min_l by lia. rewrite Nat2Z.id.
  replace (Z.to_nat (Z.of_nat (String.length before + String.length (String "." after))
                     - Z.of_nat (String.length before)))
    with (String.length (String "." after)) by lia.
  rewrite substring_skip, substring_all. reflexivity.
Qed.

(** A dot in the query wins over the extension of the path. *)
Lemma getExtension_from_last_dot_witness :
  has_dot "2" = false /\
  getExtension (Some ("http://a.bc/d.m4a?v=1" +:+ String "." "2")) ".tmp" = ".2".
Proof.
  split; [reflexivity|].
  apply (getExtension_from_last_dot "http://a.bc/d.m4a?v=1" "2" ".tmp"). reflexivity.
Defined.

(** X5. For a non-empty URL without any dot [getExtension] answers the
    last character of the URL, whatever the fallback. *)
Lemma getExtension_without_dot before c fallback :
  has_dot (before +:+ String c "") = false ->
  getExtension (Some (before +:+ String c "")) fallback = String c "".
Proof.
  intros H. unfold getExtension. rewrite truthy_append. simpl Js.show.
  unfold Js.lastIndexOf. rewrite (lastIndexOf_from_no_dot _ _ _ H).
  unfold Js.substr. rewrite length_append. simpl String.length.
  change (-1 <? 0) with true. cbv iota.
  rewrite Z.max_l by lia.
  replace (Z.to_nat (Z.of_nat (String.length before + 1) + -1)) with (String.length before) by lia.
  replace (Z.to_nat (Z.of_nat (String.length before + 1)
                     - (Z.of_nat (String.length before + 1) + -1))) with 1%nat by lia.
  rewrite substring_skip. reflexivity.
Qed.

(** A local path without extension. *)
Lemma getExtension_without_dot_witness :
  has_dot ("/assets/audi" +:+ "o") = false /\
  getExtension (Some ("/assets/audi" +:+ "o")) ".tmp" = "o".
Proof.
  split; [reflexivity|].
  apply (getExtension_without_dot "/assets/audi" "o" ".tmp"). reflexivity.
Defined.

Lemma getExtension_null fallback :
  getExtension None fallback = fallback /\ getExtension (Some "") fallback = fallback.
Proof. split; reflexivity. Qed.

End ExtensionFacts.

(** ** What the caller's callback can receive *)

Module CallbackFacts.
Import Encoder.
Local Open Scope proc_scope.

Lemma calls_app t1 t2 : calls (t1 ++ t2) = calls t1 ++ calls t2.
Proof.
  induction t1 as [|e t1 IH]; simpl; [reflexivity|].
  destruct e; simpl; rewrite ?IH; reflexivity.
Qed.

Section Invariant.
Variable P : option Error * option string -> Prop.

Lemma inv_start fs : Inv P (start fs).
Proof. constructor. Qed.

Lemma keeps_skip : Keeps P skip.
Proof. intros st H. exact H. Qed.

Lemma keeps_seq a b : Keeps P a -> Keeps P b -> Keeps P (a ;; b).
Proof.
  intros Ha Hb st H. unfold seq.
  pose proof (Ha st H) as H'. destruct (a st) as [fs t []]; [exact H'|].
  apply Hb, H'.
Qed.

Lemma keeps_emit e : calls [e] = [] -> Keeps P (emit e).
Proof.
  intros He st H. unfold Inv, emit in *. simpl.
  rewrite calls_app, He, app_nil_r. exact H.
Qed.

Lemma keeps_report err res : P (err, res) -> Keeps P (report err res).
Proof.
  intros Hp st H. unfold Inv, report, emit in *. simpl.
  rewrite calls_app. apply Forall_app. split; [exact H|].
  simpl. constructor; [exact Hp | constructor].
Qed.

Lemma keeps_throw what : Keeps P (throw what).
Proof.
  intros st H. unfold Inv, throw in *. simpl.
  rewrite calls_app, app_nil_r. exact H.
Qed.

Lemma keeps_create p : Keeps P (create p).
Proof. intros st H. exact H. Qed.

Lemma keeps_remove p : Keeps P (remove p).
Proof. intros st H. exact H. Qed.

Lemma keeps_console_error msg : Keeps P (console_error msg).
Proof. apply keeps_emit. reflexivity. Qed.

Lemma keeps_need_string what s k :
  (forall x, Keeps P (k x)) -> Keeps P (need_string what s k).
Proof. intros Hk. destruct s; simpl; [apply Hk | apply keeps_throw]. Qed.

(** A collaborator keeps the invariant when its callback does. *)

Lemma keeps_tmp_tmpName w postfix cb :
  (forall r, Keeps P (cb r)) -> Keeps P (tmp_tmpName w postfix cb).
Proof.
  intros Hcb st H. unfold tmp_tmpName.
  apply Hcb, keeps_emit; [reflexivity | exact H].
Qed.

Lemma keeps_tmp_file w postfix keep cb :
  (forall r, Keeps P (cb r)) -> Keeps P (tmp_file w postfix keep cb).
Proof.
  intros Hcb st H. unfold tmp_file.
  destruct (unique_name _ _ _); apply Hcb; try apply keeps_create;
    (apply keeps_emit; [reflexivity | exact H]).
Qed.

Lemma keeps_createWriteStream path k :
  (forall p, Keeps P (k p)) -> Keeps P (fs_createWriteStream path k).
Proof.
  intros Hk. apply keeps_need_string. intros p.
  apply keeps_seq; [apply keeps_emit; reflexivity|].
  apply keeps_seq; [apply keeps_create | apply Hk].
Qed.

Lemma keeps_unlink_done w path cb :
  (forall e, Keeps P (cb e)) -> Keeps P (fs_unlink_done w path cb).
Proof.
  intros Hcb st H. unfold fs_unlink_done.
  destruct (decide _); [destruct (unlink_refused w path)|]; apply Hcb;
    try apply keeps_remove; exact H.
Qed.

Lemma keeps_unlink w path cb rest :
  (forall e, Keeps P (cb e)) -> Keeps P rest -> Keeps P (fs_unlink w path cb rest).
Proof.
  intros Hcb Hrest. unfold fs_unlink.
  apply keeps_seq; [apply keeps_emit; reflexivity|].
  apply keeps_seq; [exact Hrest | apply keeps_unlink_done, Hcb].
Qed.

Lemma keeps_log_or_skip (log : Error -> string) err :
  Keeps P (match err with Some e => console_error (log e) | None => skip end).
Proof. destruct err; [apply keeps_console_error | apply keeps_skip]. Qed.

Lemma keeps_readFile w path cb :
  (forall e d, Keeps P (cb e d)) -> Keeps P (fs_readFile w path cb).
Proof.
  intros Hcb st H. unfold fs_readFile.
  destruct (decide _); [destruct (read_file w path)|]; apply Hcb;
    (apply keeps_emit; [reflexivity | exact H]).
Qed.

Lemma keeps_execFile w cmd args cb :
  (forall e, Keeps P (cb e)) -> Keeps P (cprocess_execFile w cmd args cb).
Proof.
  intros Hcb. unfold cprocess_execFile.
  apply keeps_seq; [apply keeps_emit; reflexivity|].
  destruct (exec_file w cmd args) as [|e partial].
  - apply keeps_seq; [apply keeps_create | apply Hcb].
  - apply keeps_seq; [destruct partial; [apply keeps_create | apply keeps_skip]
                     | apply Hcb].
Qed.

Lemma keeps_putObject w params cb :
  (forall e, Keeps P (cb e)) -> Keeps P (s3_putObject w params cb).
Proof.
  intros Hcb. apply keeps_seq; [apply keeps_emit; reflexivity | apply Hcb].
Qed.

(** However many events the request emits. *)
Lemma keeps_request_get w url onResponse onError :
  (forall r, Keeps P (onResponse r)) -> (forall e, Keeps P (onError e)) ->
  Keeps P (request_get w url onResponse onError).
Proof.
  intros Hr He. unfold request_get.
  apply keeps_seq; [apply keeps_emit; reflexivity|].
  induction (http_get w url) as [|ev evs IH]; simpl.
  - apply keeps_skip.
  - apply keeps_seq;
      [destruct ev; [apply Hr | apply He | apply keeps_throw] | exact IH].
Qed.

(** The functions of the module hand their callback an error with a
    null result, or no error with the result they are to produce. *)

Lemma keeps_networkGet w fileUrl callback errorCallback :
  (forall r, Keeps P (callback r)) -> (forall e, Keeps P (errorCallback (Some e))) ->
  Keeps P (networkGet w fileUrl callback errorCallback).
Proof.
  intros Hr He. unfold networkGet. destruct (isWebUrl fileUrl).
  - apply keeps_request_get; [exact Hr | intros e; apply He].
  - apply He.
Qed.

Lemma keeps_saveTempFile w fileUrl callback :
  (forall e, Keeps P (callback (Some e) None)) ->
  (forall p, Keeps P (callback None (Some p))) ->
  Keeps P (saveTempFile w fileUrl callback).
Proof.
  intros He Hp. unfold saveTempFile.
  apply keeps_tmp_file. intros [err|inputPath].
  { (* no path: [fs.createWriteStream] throws *) apply keeps_throw. }
  apply keeps_createWriteStream. intros file.
  apply keeps_networkGet.
  - intros response. destruct (statusCode response =? 200)%Z; [|apply He].
    destruct (piped response) as [|e|].
    + apply keeps_seq; [apply keeps_emit; reflexivity | apply Hp].
    + apply keeps_seq; [apply keeps_console_error | apply He].
    + apply keeps_skip.
  - intros e. apply keeps_seq; [apply keeps_console_error | apply He].
Qed.

Lemma keeps_convertFile w inputFile callback :
  (forall e, Keeps P (callback (Some e) None)) ->
  (forall p, Keeps P (callback None (Some p))) ->
  Keeps P (convertFile w inputFile callback).
Proof.
  intros He Hp. unfold convertFile.
  apply keeps_tmp_tmpName. intros [error|outputPath]; [apply He|].
  apply keeps_execFile. intros [e|].
  - apply keeps_unlink.
    + intros [e'|]; [apply keeps_console_error | apply keeps_skip].
    + apply keeps_seq; [apply keeps_console_error | apply He].
  - apply keeps_seq; [apply keeps_skip | apply Hp].
Qed.

Lemma keeps_downloadAndEncode w sourceUrl callback :
  (forall e, Keeps P (callback (Some e) None)) ->
  (forall p, Keeps P (callback None (Some p))) ->
  Keeps P (downloadAndEncode w sourceUrl callback).
Proof.
  intros He Hp. unfold downloadAndEncode.
  apply keeps_saveTempFile; [intros e; apply He|].
  intros fileUri. simpl.
  apply keeps_convertFile.
  - intros e. apply keeps_unlink; [intros err; apply keeps_log_or_skip | apply He].
  - intros p. apply keeps_unlink; [intros err; apply keeps_log_or_skip | apply Hp].
Qed.

Lemma keeps_sendOffToBucket w fileUri bucket itemKey callback :
  (forall e, Keeps P (callback (Some e) None)) ->
  Keeps P (callback None (Some (urlForKey bucket itemKey))) ->
  Keeps P (sendOffToBucket w fileUri bucket itemKey callback).
Proof.
  intros He Hu. unfold sendOffToBucket.
  apply keeps_readFile. intros err data.
  apply keeps_putObject. intros [e|]; [apply He | apply Hu].
Qed.

(** [encode] reports an error with a null URL, or no error with the
    URL that [urlForKey] builds. *)
Lemma keeps_encode w params :
  (forall e, P (Some e, None)) ->
  P (None, Some (urlForKey (targetBucket params) (targetKey params))) ->
  Keeps P (encode w params report).
Proof.
  intros He Hu. unfold encode.
  apply keeps_downloadAndEncode.
  - intros e. apply keeps_report, He.
  - intros mp3file.
    apply keeps_seq; [apply keeps_emit; reflexivity|]. simpl.
    apply keeps_sendOffToBucket.
    + intros e.
      apply keeps_unlink; [intros err; apply keeps_log_or_skip | apply keeps_report, He].
    + apply keeps_unlink; [intros err; apply keeps_log_or_skip | apply keeps_report, Hu].
Qed.

End Invariant.

(** C4. Whenever [encode] reports success, the URL it hands over is
    the string ["https://s3.amazonaws.com/" + bucket + "/" + key], put
    together from the bucket and the key of the request alone. *)
Theorem encode_success_url w params fs url :
  (None, Some url) ∈ calls (trace (encode w params report (start fs))) ->
  url = "https://s3.amazonaws.com/" +:+ targetBucket params +:+ "/" +:+ targetKey params.
Proof.
  intros Hin.
  pose (P := fun call : option Error * option string =>
               forall u, call = (None, Some u) ->
                         u = urlForKey (targetBucket params) (targetKey params)).
  assert (H : Forall P (calls (trace (encode w params report (start fs))))).
  { apply (keeps_encode P w params).
    - intros e u [=].
    - intros u [= <-]. reflexivity.
    - apply inv_start. }
  rewrite Forall_forall in H. exact (H _ Hin url eq_refl).
Qed.

(** The request of the test suite, in a world where everything works. *)
Lemma encode_success_url_witness :
  ((None, Some "https://s3.amazonaws.com/bespoken/encoder/test/testKey.mp3")
     ∈ calls (trace (encode Scenario.happy (Scenario.request "http://a.bc/d.m4a")
                       report (start ∅)))) /\
  ("https://s3.amazonaws.com/bespoken/encoder/test/testKey.mp3" =
     "https://s3.amazonaws.com/" +:+ "bespoken/encoder/test" +:+ "/" +:+ "testKey.mp3").
Proof.
  assert (Hin : (None, Some "https://s3.amazonaws.com/bespoken/encoder/test/testKey.mp3")
                  ∈ calls (trace (encode Scenario.happy
                                    (Scenario.request "http://a.bc/d.m4a")
                                    report (start ∅)))).
  { vm_compute. constructor. }
  split; [exact Hin|].
  exact (encode_success_url Scenario.happy (Scenario.request "http://a.bc/d.m4a")
           ∅ _ Hin).
Defined.

End CallbackFacts.

(** ** The pipeline, stage by stage *)

Module PipelineFacts.
Import Encoder.
Local Open Scope proc_scope.

(** Unfolds the functions of the module and the collaborators, leaving
    the questions put to the world. *)
Ltac run :=
  cbv beta iota zeta delta
    [encode downloadAndEncode saveTempFile convertFile sendOffToBucket
     networkGet request_get tmp_file tmp_tmpName fs_createWriteStream
     fs_unlink fs_unlink_done fs_readFile cprocess_execFile s3_putObject
     aws_config_update
     console_error need_string report seq emit throw create remove skip
     start files trace crashed List.last app fold_right calls execs].

(** Case analysis on the next answer of the world. *)
Ltac ask_world :=
  match goal with
  | |- context [match ?x with _ => _ end] =>
      lazymatch x with
      | context [match _ with _ => _ end] => fail
      | _ => destruct x eqn:?
      end
  end.

Lemma unique_name_fresh stem postfix fs p :
  unique_name stem postfix fs = inr p -> p ∉ fs.
Proof.
  unfold unique_name. destruct stem as [e|s]; [discriminate|].
  destruct (contains _ _); [discriminate|].
  destruct (decide _) as [|Hn]; [discriminate|]. intros [= <-]. exact Hn.
Qed.

(** C7. Whenever [convertFile] starts a subprocess, it is [ffmpeg] with
    the fixed profile: input the normalized input path, codec
    libmp3lame, bitrate 48k, sample rate 16000, filter volume=3, output
    the path allocated for the result.  It starts exactly one once the
    output path is allocated, and none otherwise; nothing of the profile
    comes from the caller. *)
Theorem convertFile_fixed_profile w inputFile fs :
  execs (trace (convertFile w inputFile report (start fs))) =
    match unique_name (tmp_name_stem w) ".mp3" fs with
    | inl _ => []
    | inr outputPath =>
        [("ffmpeg",
          ["-i"; path_normalize w inputFile; "-codec:a"; "libmp3lame"; "-b:a";
           "48k"; "-ar"; "16000"; "-af"; "volume=3"; outputPath])]
    end.
Proof.
  run. repeat (ask_world; run); reflexivity.
Qed.

(** A conversion that works. *)
Lemma convertFile_fixed_profile_witness :
  execs (trace (convertFile Scenario.happy "/tmp/in.m4a" report (start {["/tmp/in.m4a"]})))
    = [("ffmpeg",
        ["-i"; "/tmp/in.m4a"; "-codec:a"; "libmp3lame"; "-b:a"; "48k"; "-ar";
         "16000"; "-af"; "volume=3"; "/tmp/out.mp3"])].
Proof.
  rewrite (convertFile_fixed_profile Scenario.happy "/tmp/in.m4a" {["/tmp/in.m4a"]}).
  vm_compute. reflexivity.
Defined.

Lemma seq_skip_r (a : Proc) st : (a ;; skip) st = a st.
Proof. unfold seq, skip. destruct (a st) as [f t []]; reflexivity. Qed.

(** C5, as the code has it.  [convertFile] calls its callback once,
    with exactly one of an error and an output path.  When the
    subprocess works, the callback is the last thing that happens; it
    receives the output path, and the file is there.  When the
    subprocess fails, [fs.unlink] has been called on the output path
    when the callback starts; the deletion is completed after the
    callback, it leaves no file at the output path unless the file
    system refuses, and the closure that hears of a failure logs it
    under the name [null], the output path being reset by then. *)
Theorem convertFile_path_xor_error w inputFile fs :
  exists err out st' (later : Proc),
    (forall cb : Callback,
       convertFile w inputFile cb (start fs) = (cb err out ;; later) st') /\
    exactly_one (err, out) /\
    match unique_name (tmp_name_stem w) ".mp3" fs with
    | inl e => err = Some e /\ later = skip
    | inr outputPath =>
        match
          exec_file w "ffmpeg"
            ["-i"; path_normalize w inputFile; "-codec:a"; "libmp3lame"; "-b:a";
             "48k"; "-ar"; "16000"; "-af"; "volume=3"; outputPath]
        with
        | ExecOk => out = Some outputPath /\ outputPath ∈ files st' /\ later = skip
        | ExecFailed _ partial =>
            err = Some (JsError "Unable to encode the file to mp3.") /\
            Unlink outputPath ∈ trace st' /\
            later =
              fs_unlink_done w outputPath (fun error =>
                match error with
                | Some e =>
                    console_error
                      ("Unable to delete null. Full error: " +:+ message e)
                | None => skip
                end) /\
            (unlink_refused w outputPath = None ->
             outputPath ∉ files (convertFile w inputFile report (start fs)))
        end
    end.
Proof.
  destruct (unique_name (tmp_name_stem w) ".mp3" fs) as [e|outputPath] eqn:En.
  { eexists _, _, _, skip. split; [|split].
    - intros cb. rewrite seq_skip_r. run. rewrite En. reflexivity.
    - exact I.
    - split; reflexivity. }
  pose proof (unique_name_fresh _ _ _ _ En) as Hfresh.
  destruct (exec_file w "ffmpeg" _) as [|e partial] eqn:Ex.
  { eexists _, _, _, skip. split; [|split].
    - intros cb. rewrite seq_skip_r. run. rewrite En, Ex. run. reflexivity.
    - exact I.
    - split; [reflexivity|]. split; [simpl; set_solver | reflexivity]. }
  destruct partial;
    (eexists _, _, _,
       (fs_unlink_done w outputPath (fun error =>
          match error with
          | Some e =>
              console_error ("Unable to delete null. Full error: " +:+ message e)
          | None => skip
          end));
     split; [intros cb; run; rewrite En, Ex; run; reflexivity|];
     split; [exact I|];
     split; [reflexivity|]; split; [simpl; set_solver|];
     split; [reflexivity|];
     intros Hdel; run; rewrite En, Ex; run).
  - rewrite decide_True by set_solver. rewrite Hdel. simpl. set_solver.
  - rewrite decide_False by set_solver. simpl. set_solver.
Qed.

(** An encoder that fails and leaves a partial file: the callback gets
    the error and no path, the deletion has been asked for, and the file
    is gone when all is done. *)
Lemma convertFile_path_xor_error_witness :
  exists st' later,
    (forall cb : Callback,
       convertFile Scenario.corrupt "/tmp/in.m4a" cb (start {["/tmp/in.m4a"]})
       = (cb (Some (JsError "Unable to encode the file to mp3.")) None ;; later) st') /\
    Unlink "/tmp/out.mp3" ∈ trace st' /\
    "/tmp/out.mp3"
      ∉ files (convertFile Scenario.corrupt "/tmp/in.m4a" report (start {["/tmp/in.m4a"]})).
Proof.
  destruct (convertFile_path_xor_error Scenario.corrupt "/tmp/in.m4a" {["/tmp/in.m4a"]})
    as (err & out & st' & later & Hcb & Hxor & Hcase).
  change (err = Some (JsError "Unable to encode the file to mp3.") /\
          Unlink "/tmp/out.mp3" ∈ trace st' /\
          later =
            fs_unlink_done Scenario.corrupt "/tmp/out.mp3" (fun error =>
              match error with
              | Some e =>
                  console_error ("Unable to delete null. Full error: " +:+ message e)
              | None => skip
              end) /\
          ((None : option Error) = None ->
           "/tmp/out.mp3"
             ∉ files (convertFile Scenario.corrupt "/tmp/in.m4a" report
                        (start {["/tmp/in.m4a"]})))) in Hcase.
  destruct Hcase as (-> & Hunlink & _ & Hgone).
  destruct out; [destruct Hxor|].
  exists st', later. split; [exact Hcb|]. split; [exact Hunlink | exact (Hgone eq_refl)].
Defined.

(** C5 as the specification words it fails: when the encoder of
    [Scenario.corrupt] has failed and left a partial file, the callback
    of [convertFile] starts with that file still on disk.  The deletion
    has only been asked for; it is completed once the callback is
    through, and the file is gone in the end. *)
Lemma convertFile_calls_back_before_deletion :
  exists st',
    (forall cb : Callback,
       convertFile Scenario.corrupt "/tmp/in.m4a" cb (start {["/tmp/in.m4a"]})
       = (cb (Some (JsError "Unable to encode the file to mp3.")) None ;;
          fs_unlink_done Scenario.corrupt "/tmp/out.mp3" (fun error =>
            match error with
            | Some e =>
                console_error ("Unable to delete null. Full error: " +:+ message e)
            | None => skip
            end)) st') /\
    trace st' =
      [TmpName ".mp3";
       ExecFile "ffmpeg"
         ["-i"; "/tmp/in.m4a"; "-codec:a"; "libmp3lame"; "-b:a"; "48k"; "-ar";
          "16000"; "-af"; "volume=3"; "/tmp/out.mp3"];
       Unlink "/tmp/out.mp3";
       ConsoleError "Error thrown: Command failed: ffmpeg"] /\
    "/tmp/out.mp3" ∈ files st' /\
    "/tmp/out.mp3"
      ∉ files (convertFile Scenario.corrupt "/tmp/in.m4a" report (start {["/tmp/in.m4a"]})).
Proof.
  eexists. split; [|split; [|split]].
  - intros cb. run.
    change (unique_name (tmp_name_stem Scenario.corrupt) ".mp3" {["/tmp/in.m4a"]})
      with (inr "/tmp/out.mp3" : Error + string).
    run. reflexivity.
  - reflexivity.
  - simpl. set_solver.
  - run.
    change (unique_name (tmp_name_stem Scenario.corrupt) ".mp3" {["/tmp/in.m4a"]})
      with (inr "/tmp/out.mp3" : Error + string).
    run. cbn [Scenario.corrupt Scenario.world exec_file unlink_refused]. run.
    rewrite decide_True by set_solver. simpl. set_solver.
Qed.

(** C8. When reading the local file fails, [sendOffToBucket] goes on
    all the same: it puts the object with an undefined body, and what
    the caller receives is the answer of the store to that request,
    the store's error with a null URL or no error with the URL of the
    key.  The read error appears nowhere. *)
Theorem sendOffToBucket_ignores_read_error w fileUri bucket itemKey fs :
  fileUri ∉ fs \/ (exists e, read_file w fileUri = inl e) ->
  trace (sendOffToBucket w fileUri bucket itemKey report (start fs)) =
    [ReadFile fileUri;
     PutObject (mkPut bucket itemKey None "public-read");
     match put_object w (mkPut bucket itemKey None "public-read") with
     | Some e => Called (Some e) None
     | None => Called None (Some (urlForKey bucket itemKey))
     end].
Proof.
  intros Hread. run.
  destruct (decide (fileUri ∈ fs)) as [Hin|Hout].
  - destruct Hread as [Hout|[e He]]; [contradiction|].
    rewrite He. run. destruct (put_object w _); reflexivity.
  - run. destruct (put_object w _); reflexivity.
Qed.

(** An unreadable file and a store that rejects the credentials. *)
Lemma sendOffToBucket_ignores_read_error_witness :
  ("/tmp/out.mp3" ∉ (∅ : gset string) \/
   (exists e, read_file Scenario.unreadable "/tmp/out.mp3" = inl e)) /\
  trace (sendOffToBucket Scenario.unreadable "/tmp/out.mp3" "bucket" "key.mp3"
           report (start ∅)) =
    [ReadFile "/tmp/out.mp3";
     PutObject (mkPut "bucket" "key.mp3" None "public-read");
     Called (Some (JsError "InvalidAccessKeyId")) None].
Proof.
  assert (H : "/tmp/out.mp3" ∉ (∅ : gset string) \/
              (exists e, read_file Scenario.unreadable "/tmp/out.mp3" = inl e)).
  { right. eexists. reflexivity. }
  split; [exact H|].
  exact (sendOffToBucket_ignores_read_error Scenario.unreadable "/tmp/out.mp3"
           "bucket" "key.mp3" ∅ H).
Defined.

(** What the pipeline does with a source that is not a web URL. *)
Lemma rejected_trace w params fs :
  isWebUrl (sourceUrl params) = false ->
  trace (encode w params report (start fs)) =
    match
      unique_name (tmp_file_stem w) (getExtension (sourceUrl params) ".tmp") fs
    with
    | inl _ =>
        [TmpFile (getExtension (sourceUrl params) ".tmp") true;
         Uncaught "fs.createWriteStream"]
    | inr inputPath =>
        [TmpFile (getExtension (sourceUrl params) ".tmp") true;
         CreateWriteStream inputPath;
         ConsoleError ("Error thrown: The url " +:+ Js.show (sourceUrl params)
                       +:+ " is not a supported URI.");
         Called (Some (unsupported (sourceUrl params))) None]
    end.
Proof.
  intros Hurl. run. rewrite Hurl.
  destruct (unique_name _ _ _); reflexivity.
Qed.

(** C2, as the code has it.  For a source that is not a web URL no
    request goes to the network, no subprocess starts and nothing is
    uploaded; the check comes after the temporary file has been asked
    for, not before.  When [tmp.file] provides the file, the trace of
    the request is the allocation, the opening of the file, the log line
    and the callback with the error [is not a supported URI] and a null
    URL; when it does not, the request ends where the file is opened. *)
Theorem invalid_url_rejected_before_network w params fs :
  isWebUrl (sourceUrl params) = false ->
  trace (encode w params report (start fs)) =
    match
      unique_name (tmp_file_stem w) (getExtension (sourceUrl params) ".tmp") fs
    with
    | inl _ =>
        [TmpFile (getExtension (sourceUrl params) ".tmp") true;
         Uncaught "fs.createWriteStream"]
    | inr inputPath =>
        [TmpFile (getExtension (sourceUrl params) ".tmp") true;
         CreateWriteStream inputPath;
         ConsoleError ("Error thrown: The url " +:+ Js.show (sourceUrl params)
                       +:+ " is not a supported URI.");
         Called (Some (unsupported (sourceUrl params))) None]
    end /\
  (forall url, HttpGet url ∉ trace (encode w params report (start fs))) /\
  execs (trace (encode w params report (start fs))) = [] /\
  puts (trace (encode w params report (start fs))) = [].
Proof.
  intros Hurl. rewrite (rejected_trace w params fs Hurl).
  split; [reflexivity|].
  destruct (unique_name _ _ _); (split; [|split; reflexivity]);
    intros url Hin;
    repeat (apply elem_of_cons in Hin as [Hin|Hin]; [discriminate|]);
    inversion Hin.
Qed.

(** The local path of the test suite. *)
Lemma invalid_url_rejected_before_network_witness :
  isWebUrl (Some "/assets/img.png") = false /\
  trace (encode Scenario.happy (Scenario.request "/assets/img.png") report (start ∅)) =
    [TmpFile ".png" true;
     CreateWriteStream "/tmp/in.png";
     ConsoleError "Error thrown: The url /assets/img.png is not a supported URI.";
     Called (Some (unsupported (Some "/assets/img.png"))) None].
Proof.
  split; [reflexivity|].
  rewrite (proj1 (invalid_url_rejected_before_network Scenario.happy
                    (Scenario.request "/assets/img.png") ∅ eq_refl)).
  reflexivity.
Defined.

(** C2 as the specification words it fails: for the local path of the
    test suite, which is not a web URL, the request leaves on disk a
    temporary file that was not there before. *)
Lemma invalid_url_allocates_temp_file :
  isWebUrl (Some "/assets/img.png") = false /\
  TmpFile ".png" true
    ∈ trace (encode Scenario.happy (Scenario.request "/assets/img.png")
               report (start ∅)) /\
  files (encode Scenario.happy (Scenario.request "/assets/img.png")
           report (start ∅)) = {["/tmp/in.png"]} /\
  files (encode Scenario.happy (Scenario.request "/assets/img.png")
           report (start ∅)) <> files (start ∅).
Proof.
  split; [reflexivity|]. split; [vm_compute; constructor|].
  assert (E : files (encode Scenario.happy (Scenario.request "/assets/img.png")
                       report (start ∅)) = {["/tmp/in.png"]}).
  { run. simpl. set_solver. }
  split; [exact E|]. rewrite E. simpl. set_solver.
Qed.

(** When the temporary file is allocated and the request emits a single
    event (an error, or a response that is not a 200 whose stream never
    finishes), [encode] calls the caller's callback exactly once. *)
Lemma encode_calls_once w params fs inputPath :
  unique_name (tmp_file_stem w) (getExtension (sourceUrl params) ".tmp") fs
    = inr inputPath ->
  isWebUrl (sourceUrl params) = false \/
  (exists e, http_get w (Js.show (sourceUrl params)) = [OnError e]) \/
  (exists r, http_get w (Js.show (sourceUrl params)) = [OnResponse r] /\
             (statusCode r = 200 -> piped r <> Stalled)) ->
  length (calls (trace (encode w params report (start fs)))) = 1%nat.
Proof.
  intros Hname [Hurl|Hget].
  - rewrite (rejected_trace w params fs Hurl), Hname. reflexivity.
  - run. rewrite Hname. destruct (isWebUrl (sourceUrl params)); run; [|reflexivity].
    destruct Hget as [[e He]|[r [Hr Hp]]].
    + rewrite He. run. reflexivity.
    + rewrite Hr. run. destruct r as [status body]. cbn [statusCode piped] in *.
      destruct (status =? 200) eqn:Es; run; [|reflexivity].
      apply Z.eqb_eq in Es. specialize (Hp Es).
      destruct body; [| run; reflexivity | congruence].
      run. repeat (ask_world; run); reflexivity.
Qed.

(** X19. When [tmp.file] answers with an error, [saveTempFile] does not
    look at it and opens a write stream on an undefined path: the
    exception is caught by no one and the caller's callback is never
    called. *)
Lemma allocation_error_is_uncaught w params fs e :
  unique_name (tmp_file_stem w) (getExtension (sourceUrl params) ".tmp") fs = inl e ->
  trace (encode w params report (start fs)) =
    [TmpFile (getExtension (sourceUrl params) ".tmp") true;
     Uncaught "fs.createWriteStream"].
Proof. intros Hname. run. rewrite Hname. reflexivity. Qed.

(** The calls that [encode] does make.  Whatever the collaborators
    answer, every time [encode] calls the caller's callback exactly one
    of the error and the URL is non-null.  The call comes once when the
    temporary file is allocated and the request emits a single event
    that is an error or a response other than a 200 whose stream never
    finishes. *)
Lemma encode_url_xor_error w params fs :
  Forall exactly_one (calls (trace (encode w params report (start fs)))) /\
  forall inputPath,
    unique_name (tmp_file_stem w) (getExtension (sourceUrl params) ".tmp") fs
      = inr inputPath ->
    isWebUrl (sourceUrl params) = false \/
    (exists e, http_get w (Js.show (sourceUrl params)) = [OnError e]) \/
    (exists r, http_get w (Js.show (sourceUrl params)) = [OnResponse r] /\
               (statusCode r = 200 -> piped r <> Stalled)) ->
    length (calls (trace (encode w params report (start fs)))) = 1%nat.
Proof.
  split.
  - apply (CallbackFacts.keeps_encode exactly_one w params).
    + intros e. exact I.
    + exact I.
    + apply CallbackFacts.inv_start.
  - intros inputPath. apply encode_calls_once.
Qed.

(** The request of the test suite against a store that rejects the
    credentials: one call, with the error of the store and no URL. *)
Lemma encode_url_xor_error_example :
  calls (trace (encode Scenario.unreadable (Scenario.request "http://a.bc/d.m4a")
                  report (start ∅)))
    = [(Some (JsError "InvalidAccessKeyId"), None)] /\
  Forall exactly_one
    (calls (trace (encode Scenario.unreadable (Scenario.request "http://a.bc/d.m4a")
                     report (start ∅)))) /\
  length (calls (trace (encode Scenario.unreadable
                          (Scenario.request "http://a.bc/d.m4a")
                          report (start ∅)))) = 1%nat.
Proof.
  split; [vm_compute; reflexivity|].
  pose proof (encode_url_xor_error Scenario.unreadable
                (Scenario.request "http://a.bc/d.m4a") ∅) as [Hxor Honce].
  split; [exact Hxor|].
  apply (Honce "/tmp/in.m4a"); [reflexivity|].
  right. right. eexists. split; [reflexivity|]. intros _. discriminate.
Qed.

(** An error that the request emits before a listener is attached is
    thrown out of [request.get], inside the callback of [tmp.file],
    where no one catches it. *)
Lemma unhandled_request_error_is_uncaught w params fs inputPath e evs :
  isWebUrl (sourceUrl params) = true ->
  unique_name (tmp_file_stem w) (getExtension (sourceUrl params) ".tmp") fs
    = inr inputPath ->
  http_get w (Js.show (sourceUrl params)) = Unhandled e :: evs ->
  trace (encode w params report (start fs)) =
    [TmpFile (getExtension (sourceUrl params) ".tmp") true;
     CreateWriteStream inputPath;
     HttpGet (Js.show (sourceUrl params));
     Uncaught ("request.get: " +:+ message e)].
Proof.
  intros Hurl Hname Hget. run. rewrite Hname, Hurl. run. rewrite Hget. run.
  reflexivity.
Qed.

(** A source with the scheme [ftp], which [isWebUrl] accepts and the
    request library does not speak. *)
Lemma ftp_request_is_uncaught :
  isWebUrl (Some "ftp://a.bc/d.m4a") = true /\
  trace (encode Scenario.unspoken (Scenario.request "ftp://a.bc/d.m4a")
           report (start ∅))
    = [TmpFile ".m4a" true;
       CreateWriteStream "/tmp/in.m4a";
       HttpGet "ftp://a.bc/d.m4a";
       Uncaught "request.get: Invalid protocol: ftp:"].
Proof.
  split; [reflexivity|].
  apply (unhandled_request_error_is_uncaught Scenario.unspoken
           (Scenario.request "ftp://a.bc/d.m4a") ∅ "/tmp/in.m4a"
           (JsError "Invalid protocol: ftp:") []);
    reflexivity.
Qed.

(** C1, where the code departs from it.  [http://example.com/audio] is
    a web URL for [isWebUrl]; its extension, taken from the last dot of
    the whole string, is [.com/audio]; [tmp.file] cannot create a file
    of that name and says so; [saveTempFile] does not look at the error
    and opens a write stream on an undefined path.  The exception ends
    the request: the caller's callback is never called, and receives
    neither a URL nor an error.  So it is for any source when [tmp.file]
    fails. *)
Theorem encode_reports_nothing :
  isWebUrl (Some "http://example.com/audio") = true /\
  trace (encode Scenario.happy (Scenario.request "http://example.com/audio")
           report (start ∅))
    = [TmpFile ".com/audio" true; Uncaught "fs.createWriteStream"] /\
  calls (trace (encode Scenario.happy (Scenario.request "http://example.com/audio")
                  report (start ∅))) = [] /\
  calls (trace (encode Scenario.no_tmp (Scenario.request "http://a.bc/d.m4a")
                  report (start ∅))) = [].
Proof. repeat split; vm_compute; reflexivity. Qed.

(** C9. When the source is a web URL and the download fails, by a
    network error or by a final status other than 200,
    [downloadAndEncode] hands its callback an error and a null path,
    and the temporary file, asked for with [keep] before the request
    went out, is still on disk: no deletion was requested. *)
Theorem failed_download_leaves_temp_file w sourceUrl fs inputPath ev :
  isWebUrl sourceUrl = true ->
  unique_name (tmp_file_stem w) (getExtension sourceUrl ".tmp") fs = inr inputPath ->
  http_get w (Js.show sourceUrl) = [ev] ->
  (exists e, ev = OnError e) \/ (exists r, ev = OnResponse r /\ statusCode r <> 200) ->
  calls (trace (downloadAndEncode w sourceUrl report (start fs)))
    = [(Some (JsError ("Unable to download and save file at path "
                       +:+ Js.show sourceUrl +:+ ". Error: "
                       +:+ download_failure sourceUrl ev)), None)] /\
  inputPath ∈ files (downloadAndEncode w sourceUrl report (start fs)) /\
  TmpFile (getExtension sourceUrl ".tmp") true
    ∈ trace (downloadAndEncode w sourceUrl report (start fs)) /\
  (forall p, Unlink p ∉ trace (downloadAndEncode w sourceUrl report (start fs))).
Proof.
  intros Hurl Hname Hget [[e ->]|[r [-> Hstatus]]].
  - run. rewrite Hname, Hurl. run. rewrite Hget. run.
    split; [reflexivity|]. split; [set_solver|].
    split; [constructor|]. intros p Hp.
    repeat (apply elem_of_cons in Hp as [Hp|Hp]; [discriminate|]).
    inversion Hp.
  - run. rewrite Hname, Hurl. run. rewrite Hget. run.
    apply Z.eqb_neq in Hstatus. rewrite Hstatus. run.
    split; [reflexivity|]. split; [set_solver|].
    split; [constructor|]. intros p Hp.
    repeat (apply elem_of_cons in Hp as [Hp|Hp]; [discriminate|]).
    inversion Hp.
Qed.

(** A server that answers 404. *)
Lemma failed_download_leaves_temp_file_witness :
  isWebUrl (Some "http://a.bc/d.m4a") = true /\
  unique_name (tmp_file_stem Scenario.missing)
    (getExtension (Some "http://a.bc/d.m4a") ".tmp") ∅ = inr "/tmp/in.m4a" /\
  http_get Scenario.missing "http://a.bc/d.m4a"
    = [OnResponse (mkResponse 404 Stalled)] /\
  calls (trace (downloadAndEncode Scenario.missing (Some "http://a.bc/d.m4a")
                  report (start ∅)))
    = [(Some (JsError "Unable to download and save file at path http://a.bc/d.m4a. Error: Could not retrieve file from http://a.bc/d.m4a"),
        None)] /\
  "/tmp/in.m4a"
    ∈ files (downloadAndEncode Scenario.missing (Some "http://a.bc/d.m4a")
               report (start ∅)).
Proof.
  split; [reflexivity|]. split; [reflexivity|]. split; [reflexivity|].
  assert (Hfail : (exists e, OnResponse (mkResponse 404 Stalled) = OnError e) \/
                  (exists r, OnResponse (mkResponse 404 Stalled) = OnResponse r /\
                             statusCode r <> 200)).
  { right. eexists. split; [reflexivity|]. simpl. lia. }
  pose proof (failed_download_leaves_temp_file Scenario.missing
                (Some "http://a.bc/d.m4a") ∅ "/tmp/in.m4a"
                (OnResponse (mkResponse 404 Stalled))
                eq_refl eq_refl eq_refl Hfail) as [H1 [H2 _]].
  split; [exact H1 | exact H2].
Defined.

(** C6. When the download succeeded and the file system refuses no
    deletion, a request leaves the disk as it found it, whatever the
    encoder and the store answer: the deletion of the downloaded file
    is requested whether or not the transcoding worked, the deletion of
    the output path is requested whether or not the upload worked (and
    by [convertFile] itself when the encoder failed), and the caller's
    callback is called once. *)
Theorem no_temp_files_after_download w params fs inputPath :
  isWebUrl (sourceUrl params) = true ->
  unique_name (tmp_file_stem w) (getExtension (sourceUrl params) ".tmp") fs
    = inr inputPath ->
  http_get w (Js.show (sourceUrl params)) = [OnResponse (mkResponse 200 Finished)] ->
  (forall p, unlink_refused w p = None) ->
  files (encode w params report (start fs)) = fs /\
  Unlink inputPath ∈ trace (encode w params report (start fs)) /\
  match unique_name (tmp_name_stem w) ".mp3" ({[inputPath]} ∪ fs) with
  | inl _ => True
  | inr outputPath => Unlink outputPath ∈ trace (encode w params report (start fs))
  end /\
  length (calls (trace (encode w params report (start fs)))) = 1%nat.
Proof.
  intros Hurl Hname Hget Hunlink.
  pose proof (unique_name_fresh _ _ _ _ Hname) as Hin.
  run. rewrite Hname, Hurl. run. rewrite Hget. run.
  cbn [statusCode piped Z.eqb Pos.eqb]. run.
  replace ({[inputPath]} ∪ ({[inputPath]} ∪ fs)) with ({[inputPath]} ∪ fs)
    by set_solver.
  destruct (unique_name (tmp_name_stem w) ".mp3" ({[inputPath]} ∪ fs))
    as [e|outputPath] eqn:Hout.
  { run. rewrite decide_True by set_solver. rewrite Hunlink. run.
    split; [set_solver|]. split; [set_solver|]. split; [exact I | reflexivity]. }
  pose proof (unique_name_fresh _ _ _ _ Hout) as Hfresh.
  run. destruct (exec_file w "ffmpeg" _) as [|e partial].
  - run. rewrite decide_True by set_solver.
    destruct (read_file w outputPath); run;
      (destruct (put_object w _); run;
       rewrite decide_True by set_solver; rewrite Hunlink; run;
       rewrite decide_True by set_solver; rewrite Hunlink; run;
       (split; [set_solver|]); (split; [set_solver|]);
       (split; [set_solver | reflexivity])).
  - destruct partial; run.
    + rewrite decide_True by set_solver. rewrite Hunlink. run.
      rewrite decide_True by set_solver. rewrite Hunlink. run.
      split; [set_solver|]. split; [set_solver|].
      split; [set_solver | reflexivity].
    + rewrite decide_True by set_solver. rewrite Hunlink. run.
      rewrite decide_False by set_solver. run.
      split; [set_solver|]. split; [set_solver|].
      split; [set_solver | reflexivity].
Qed.

(** A download that works and an encoder that fails, leaving a partial
    file. *)
Lemma no_temp_files_after_download_witness :
  isWebUrl (Some "http://a.bc/d.m4a") = true /\
  files (encode Scenario.corrupt (Scenario.request "http://a.bc/d.m4a")
           report (start ∅)) = ∅.
Proof.
  split; [reflexivity|].
  apply (no_temp_files_after_download Scenario.corrupt
           (Scenario.request "http://a.bc/d.m4a") ∅ "/tmp/in.m4a");
    reflexivity.
Defined.

(** C10, as the code has it.  A URL with one of the three schemes and
    no user information whose host has no dot is not a web URL for
    [isWebUrl], and no request is sent for it; once [tmp.file] has
    provided the temporary file, the pipeline rejects it as an
    unsupported URI. *)
Theorem dot_free_host_rejected scheme rest w params fs :
  is_web_scheme scheme = true ->
  contains "@" (authority rest) = false ->
  has_dot (url_host rest) = false ->
  sourceUrl params = Some (scheme +:+ "://" +:+ rest) ->
  isWebUrl (sourceUrl params) = false /\
  (forall url, HttpGet url ∉ trace (encode w params report (start fs))) /\
  (forall inputPath,
     unique_name (tmp_file_stem w) (getExtension (sourceUrl params) ".tmp") fs
       = inr inputPath ->
     calls (trace (encode w params report (start fs)))
       = [(Some (unsupported (sourceUrl params)), None)]).
Proof.
  intros Hscheme Huser Hhost Hsource.
  rewrite (UrlFacts.host_without_userinfo rest Huser) in Hhost.
  assert (Hurl : isWebUrl (sourceUrl params) = false).
  { rewrite Hsource.
    destruct (isWebUrl (Some (scheme +:+ "://" +:+ rest))) eqn:E; [|reflexivity].
    apply (UrlFacts.accepted_host_has_dot scheme rest Hscheme) in E. congruence. }
  split; [exact Hurl|].
  rewrite (rejected_trace w params fs Hurl). split.
  - intros url Hin. destruct (unique_name _ _ _);
      repeat (apply elem_of_cons in Hin as [Hin|Hin]; [discriminate|]);
      inversion Hin.
  - intros inputPath ->. reflexivity.
Qed.

(** [http://localhost:8080/a.mp3] *)
Lemma dot_free_host_rejected_witness :
  is_web_scheme "http" = true /\
  contains "@" (authority "localhost:8080/a.mp3") = false /\
  url_host "localhost:8080/a.mp3" = "localhost" /\
  isWebUrl (Some "http://localhost:8080/a.mp3") = false /\
  calls (trace (encode Scenario.happy (Scenario.request "http://localhost:8080/a.mp3")
                  report (start ∅)))
    = [(Some (unsupported (Some "http://localhost:8080/a.mp3")), None)].
Proof.
  split; [reflexivity|]. split; [reflexivity|]. split; [reflexivity|].
  pose proof (dot_free_host_rejected "http" "localhost:8080/a.mp3" Scenario.happy
                (Scenario.request "http://localhost:8080/a.mp3") ∅
                eq_refl eq_refl eq_refl eq_refl) as [H1 [_ H2]].
  split; [exact H1 | exact (H2 "/tmp/in.mp3" eq_refl)].
Defined.

(** C10 as the specification words it fails: the host of
    [http://foo.bar@localhost:8080/a.mp3] is [localhost], a single label
    without a dot, and [isWebUrl] accepts the URL, the dot of the user
    information standing where the literal wants to see one; the
    request goes out. *)
Lemma dot_free_host_accepted :
  is_web_scheme "http" = true /\
  url_host "foo.bar@localhost:8080/a.mp3" = "localhost" /\
  has_dot (url_host "foo.bar@localhost:8080/a.mp3") = false /\
  isWebUrl (Some "http://foo.bar@localhost:8080/a.mp3") = true /\
  HttpGet "http://foo.bar@localhost:8080/a.mp3"
    ∈ trace (encode Scenario.happy
               (Scenario.request "http://foo.bar@localhost:8080/a.mp3")
               report (start ∅)).
Proof.
  split; [reflexivity|]. split; [reflexivity|]. split; [reflexivity|].
  split; [vm_compute; reflexivity|].
  vm_compute. do 2 constructor. constructor.
Qed.

(** C3, where the code departs from it.  For a URL without any dot
    [lastIndexOf] answers -1 and [substr] then keeps the last
    character: the suffix of the temporary file is that character and
    not [.tmp].  For a URL that [isWebUrl] accepts and whose path has no
    dot, the suffix starts at the last dot of the host. *)
Theorem getExtension_misses_fallback :
  getExtension (Some "audio") ".tmp" = "o" /\
  head (trace (encode Scenario.happy (Scenario.request "audio") report (start ∅)))
    = Some (TmpFile "o" true) /\
  isWebUrl (Some "http://example.com/audio") = true /\
  getExtension (Some "http://example.com/audio") ".tmp" = ".com/audio" /\
  head (trace (encode Scenario.happy (Scenario.request "http://example.com/audio")
                 report (start ∅)))
    = Some (TmpFile ".com/audio" true).
Proof.
  split; [reflexivity|]. split; [vm_compute; reflexivity|].
  split; [vm_compute; reflexivity|]. split; [reflexivity|].
  vm_compute. reflexivity.
Qed.

End PipelineFacts.

(** ** What [isWebUrl] accepts, exactly *)

Module AcceptedUrls.
Import Re ReFacts Encoder.

Lemma list_ascii_of_string_inj a b :
  list_ascii_of_string a = list_ascii_of_string b -> a = b.
Proof.
  intros H. rewrite <- (string_of_list_ascii_of_string a),
    <- (string_of_list_ascii_of_string b), H. reflexivity.
Qed.

Lemma all_chars_Forall p s :
  all_chars p s = true <-> Forall (fun c => p c = true) (list_ascii_of_string s).
Proof.
  induction s as [|c s IH]; simpl.
  - split; [constructor | reflexivity].
  - rewrite andb_true_iff, IH. split.
    + intros [H1 H2]. constructor; assumption.
    + inversion 1; subst. split; assumption.
Qed.

Lemma all_chars_of_list p l :
  Forall (fun c => p c = true) l -> all_chars p (string_of_list_ascii l) = true.
Proof.
  intros H. apply all_chars_Forall.
  rewrite list_ascii_of_string_of_list_ascii. exact H.
Qed.

(** *** From a match to the shape *)

Lemma class_one_line k c : one_line_cls k = true -> mem k c = true -> any c = true.
Proof.
  destruct k as [a| | | |]; simpl.
  - intros Ha Hc. apply Ascii.eqb_eq in Hc. subst. exact Ha.
  - intros _. destruct c as [[] [] [] [] [] [] [] []]; vm_compute; congruence.
  - intros _. destruct c as [[] [] [] [] [] [] [] []]; vm_compute; congruence.
  - intros _. destruct c as [[] [] [] [] [] [] [] []]; vm_compute; congruence.
  - intros _ H. exact H.
Qed.

Lemma matches_one_line r s :
  one_line_re r = true -> Matches r s -> Forall (fun c => any c = true) s.
Proof.
  intros Hr H. induction H; simpl in Hr;
    try apply andb_true_iff in Hr as [Hr1 Hr2]; auto.
  - constructor; [|constructor]. eapply class_one_line; eassumption.
  - apply Forall_app. split; auto.
  - apply Forall_app. split; auto.
Qed.

Lemma matches_label_dot l :
  Matches (Cat (plus (Class WordDash)) (chr ".")) l ->
  exists label, l = label ++ ["."%char] /\ label_ok label.
Proof.
  intros H. apply matches_cat in H as (l1 & l2 & -> & H1 & H2).
  apply UrlFacts.matches_chr in H2 as ->.
  apply matches_cat in H1 as (l3 & l4 & -> & H3 & H4).
  apply matches_class in H3 as (c & -> & Hc).
  apply UrlFacts.matches_star_class in H4.
  exists (c :: l4). split; [reflexivity|]. split; [discriminate|].
  constructor; assumption.
Qed.

Lemma matches_star_labels l :
  Matches (Star (Cat (plus (Class WordDash)) (chr "."))) l ->
  exists labels,
    l = concat (map (fun label => label ++ ["."%char]) labels) /\
    Forall label_ok labels.
Proof.
  intros H. remember (Star (Cat (plus (Class WordDash)) (chr "."))) as r eqn:Er.
  induction H as [| | | | | |r0 l1 l2 H1 _ H2 IH2]; try discriminate.
  - exists []. split; [reflexivity | constructor].
  - injection Er as ->. destruct (IH2 eq_refl) as (labels & -> & Hl).
    apply matches_label_dot in H1 as (label & -> & Hlabel).
    exists (label :: labels). split; [reflexivity|]. constructor; assumption.
Qed.

Lemma dotted_list labels :
  list_ascii_of_string (dotted (map string_of_list_ascii labels))
  = concat (map (fun label => label ++ ["."%char]) labels).
Proof.
  induction labels as [|l labels IH]; simpl; [reflexivity|].
  rewrite !UrlFacts.list_ascii_of_string_app, list_ascii_of_string_of_list_ascii, IH. simpl.
  rewrite <- app_assoc. reflexivity.
Qed.

Lemma is_label_of_list l : label_ok l -> is_label (string_of_list_ascii l) = true.
Proof.
  intros [Hne Hl]. destruct l as [|c l]; [contradiction|].
  change (is_label (string_of_list_ascii (c :: l)))
    with (all_chars word_or_dash (string_of_list_ascii (c :: l))).
  apply all_chars_of_list, Hl.
Qed.

Lemma is_label_ok l : is_label l = true -> label_ok (list_ascii_of_string l).
Proof.
  destruct l as [|c l]; [discriminate|]. intros H. split; [discriminate|].
  apply all_chars_Forall. exact H.
Qed.

(** *** From the shape to a match *)

Lemma matches_star_of_class k l :
  Forall (fun c => mem k c = true) l -> Matches (Star (Class k)) l.
Proof.
  induction 1 as [|c l Hc _ IH]; [constructor|].
  apply (MStarS _ [c] l); [constructor; exact Hc | exact IH].
Qed.

Lemma matches_of_label l :
  label_ok l -> Matches (Cat (plus (Class WordDash)) (chr ".")) (l ++ ["."%char]).
Proof.
  intros [Hne Hl]. destruct l as [|c l]; [contradiction|].
  inversion Hl; subst. constructor.
  - apply (MCat _ _ [c] l); [constructor; assumption|].
    apply matches_star_of_class. assumption.
  - constructor. apply Ascii.eqb_refl.
Qed.

Lemma matches_of_labels labels :
  Forall label_ok labels ->
  Matches (Star (Cat (plus (Class WordDash)) (chr ".")))
    (concat (map (fun label => label ++ ["."%char]) labels)).
Proof.
  induction 1 as [|l labels Hl _ IH]; simpl; [constructor|].
  constructor; [apply matches_of_label; exact Hl | exact IH].
Qed.

Lemma matches_of_scheme scheme :
  is_web_scheme scheme = true ->
  Matches re_scheme (list_ascii_of_string (scheme +:+ "://")).
Proof.
  intros H. apply UrlFacts.is_web_scheme_cases in H as [-> | [-> | ->]].
  - apply (MCat _ _ (list_ascii_of_string "http") (list_ascii_of_string "://")).
    + apply MAltL. apply (MCat _ _ (list_ascii_of_string "http") []).
      * repeat (apply (MCat _ _ [_] _); [constructor; reflexivity|]). constructor.
      * apply MAltR. constructor.
    + repeat (apply (MCat _ _ [_] _); [constructor; reflexivity|]).
      constructor. reflexivity.
  - apply (MCat _ _ (list_ascii_of_string "https") (list_ascii_of_string "://")).
    + apply MAltL. apply (MCat _ _ (list_ascii_of_string "http") ["s"%char]).
      * repeat (apply (MCat _ _ [_] _); [constructor; reflexivity|]). constructor.
      * apply MAltL. constructor. reflexivity.
    + repeat (apply (MCat _ _ [_] _); [constructor; reflexivity|]).
      constructor. reflexivity.
  - apply (MCat _ _ (list_ascii_of_string "ftp") (list_ascii_of_string "://")).
    + apply MAltR.
      repeat (apply (MCat _ _ [_] _); [constructor; reflexivity|]). constructor.
    + repeat (apply (MCat _ _ [_] _); [constructor; reflexivity|]).
      constructor. reflexivity.
Qed.

(** The shape of a web URL: one of the three schemes, [://], one or
    more labels of [[\w-]] each followed by a dot, one character of
    [\w], and a rest that stays on one line. *)

Lemma accepted_shape url :
  isWebUrl (Some url) = true ->
  exists scheme label labels w rest,
    url = scheme +:+ "://" +:+ dotted (label :: labels) +:+ String w rest /\
    is_web_scheme scheme = true /\
    forallb is_label (label :: labels) = true /\
    word w = true /\
    all_chars any rest = true.
Proof.
  intros H. unfold isWebUrl in H. destruct (negb _); [discriminate|].
  simpl Js.show in H. apply test_spec in H.
  apply matches_cat in H as (l1 & l2 & E & H1 & H2).
  apply matches_cat in H2 as (l3 & l4 & -> & H3 & H4).
  apply matches_cat in H4 as (l5 & l6 & -> & H5 & H6).
  apply matches_cat in H3 as (l7 & l8 & -> & H7 & H8).
  apply matches_label_dot in H7 as (label & -> & Hlabel).
  apply matches_star_labels in H8 as (labels & -> & Hlabels).
  apply matches_cat in H5 as (l9 & l10 & -> & H9 & H10).
  apply matches_class in H9 as (w & -> & Hw).
  apply matches_one_line in H10; [|reflexivity].
  apply matches_one_line in H6; [|reflexivity].
  assert (Hs : exists scheme, l1 = list_ascii_of_string (scheme +:+ "://") /\
                              is_web_scheme scheme = true).
  { apply UrlFacts.matches_scheme in H1 as [-> | [-> | ->]];
      [exists "http" | exists "https" | exists "ftp"]; split; reflexivity. }
  destruct Hs as (scheme & -> & Hscheme).
  exists scheme, (string_of_list_ascii label), (map string_of_list_ascii labels),
    w, (string_of_list_ascii (l10 ++ l6)).
  split; [|split; [exact Hscheme|split; [|split; [exact Hw|]]]].
  + apply list_ascii_of_string_inj. rewrite E.
    rewrite !UrlFacts.list_ascii_of_string_app.
    change (string_of_list_ascii label :: map string_of_list_ascii labels)
      with (map string_of_list_ascii (label :: labels)).
    rewrite dotted_list. simpl.
    rewrite list_ascii_of_string_of_list_ascii, <- !app_assoc. reflexivity.
  + simpl. rewrite (is_label_of_list _ Hlabel). simpl.
    apply forallb_forall. intros l Hl. apply in_map_iff in Hl as (l' & <- & Hl').
    apply is_label_of_list. rewrite Forall_forall in Hlabels.
    apply Hlabels. apply list_elem_of_In. exact Hl'.
  + apply all_chars_of_list, Forall_app. split; assumption.
Qed.

Lemma shape_accepted url :
  (
  exists scheme label labels w rest,
    url = scheme +:+ "://" +:+ dotted (label :: labels) +:+ String w rest /\
    is_web_scheme scheme = true /\
    forallb is_label (label :: labels) = true /\
    word w = true /\
    all_chars any rest = true) ->
  isWebUrl (Some url) = true.
Proof.
  intros (scheme & label & labels & w & rest & -> & Hscheme & Hlabels & Hw & Hrest).
  unfold isWebUrl.
  assert (Ht : Js.truthy (Some (scheme +:+ "://" +:+ dotted (label :: labels)
                                +:+ String w rest)) = true).
  { apply UrlFacts.is_web_scheme_cases in Hscheme as [-> | [-> | ->]]; reflexivity. }
  rewrite Ht. simpl negb. cbv iota. simpl Js.show. apply test_spec.
  rewrite (UrlFacts.list_ascii_of_string_app scheme),
    (UrlFacts.list_ascii_of_string_app "://"),
    (UrlFacts.list_ascii_of_string_app (label +:+ "." +:+ dotted labels)),
    app_assoc, <- (UrlFacts.list_ascii_of_string_app scheme "://").
  simpl in Hlabels. apply andb_true_iff in Hlabels as [Hlabel Hlabels].
  apply MCat; [apply matches_of_scheme; exact Hscheme|].
  apply MCat.
  + rewrite UrlFacts.list_ascii_of_string_app, UrlFacts.list_ascii_of_string_app.
    assert (Hd : exists ls, list_ascii_of_string (dotted labels)
                   = concat (map (fun l => l ++ ["."%char]) ls) /\ Forall label_ok ls).
    { clear -Hlabels. induction labels as [|l labels IH]; simpl in *.
      - exists []. split; [reflexivity | constructor].
      - apply andb_true_iff in Hlabels as [Hl Hls].
        destruct (IH Hls) as (ls & E & Hok).
        exists (list_ascii_of_string l :: ls). split.
        + rewrite !UrlFacts.list_ascii_of_string_app, E. simpl.
          rewrite <- app_assoc. reflexivity.
        + constructor; [apply is_label_ok; exact Hl | exact Hok]. }
    destruct Hd as (ls & -> & Hok).
    rewrite app_assoc. apply MCat.
    * apply matches_of_label, is_label_ok, Hlabel.
    * apply matches_of_labels, Hok.
  + simpl list_ascii_of_string.
    apply (MCat _ _ [w] (list_ascii_of_string rest)).
    * apply (MCat _ _ [w] []); constructor. exact Hw.
    * apply (MCat _ _ [] (list_ascii_of_string rest)); [apply MAltR; constructor|].
      apply (MCat _ _ [] (list_ascii_of_string rest)); [apply MAltR; constructor|].
      apply (MCat _ _ [] (list_ascii_of_string rest)); [constructor|].
      apply (MCat _ _ [] (list_ascii_of_string rest)); [apply MAltR; constructor|].
      apply (MCat _ _ [] (list_ascii_of_string rest)); [apply MAltR; constructor|].
      apply matches_star_of_class, all_chars_Forall, Hrest.
Qed.


(** X1. [isWebUrl] accepts a non-empty string exactly when it is one of
    the three schemes, [://], one or more labels of [[\w-]] each
    followed by a dot, one character of [\w], and then anything that
    stays on one line: the port, path, extension and query of the
    literal restrict nothing. *)
Theorem isWebUrl_accepts_exactly url :
  isWebUrl (Some url) = true <->
  exists scheme label labels w rest,
    url = scheme +:+ "://" +:+ dotted (label :: labels) +:+ String w rest /\
    is_web_scheme scheme = true /\
    forallb is_label (label :: labels) = true /\
    word w = true /\
    all_chars any rest = true.
Proof. split; [apply accepted_shape | apply shape_accepted]. Qed.

(** A port of nine digits and a space in the path. *)
Lemma isWebUrl_accepts_exactly_witness :
  isWebUrl (Some "http://my-host.io:999999999/a b") = true.
Proof.
  apply (proj2 (isWebUrl_accepts_exactly "http://my-host.io:999999999/a b")).
  exists "http", "my-host", [], "i"%char, "o:999999999/a b".
  repeat split; reflexivity.
Defined.

(** X2. Whatever is appended to a URL that [isWebUrl] accepts, the
    result is accepted too as long as no line terminator is added. *)
Theorem isWebUrl_closed_under_suffix url suffix :
  isWebUrl (Some url) = true ->
  all_chars any suffix = true ->
  isWebUrl (Some (url +:+ suffix)) = true.
Proof.
  intros H Hsuffix.
  apply accepted_shape in H
    as (scheme & label & labels & w & rest & -> & Hscheme & Hlabels & Hw & Hrest).
  apply shape_accepted.
  exists scheme, label, labels, w, (rest +:+ suffix).
  split; [|split; [exact Hscheme|split; [exact Hlabels|split; [exact Hw|]]]].
  - apply list_ascii_of_string_inj.
    repeat first [ rewrite UrlFacts.list_ascii_of_string_app
                 | rewrite <- app_assoc
                 | progress simpl ].
    reflexivity.
  - apply all_chars_Forall. rewrite UrlFacts.list_ascii_of_string_app.
    apply Forall_app. split; apply all_chars_Forall; assumption.
Qed.

Lemma isWebUrl_closed_under_suffix_witness :
  isWebUrl (Some "ftp://a.b") = true /\
  all_chars any "@localhost:123456 and more" = true /\
  isWebUrl (Some ("ftp://a.b" +:+ "@localhost:123456 and more")) = true.
Proof.
  split; [reflexivity|]. split; [reflexivity|].
  apply (isWebUrl_closed_under_suffix "ftp://a.b" "@localhost:123456 and more");
    reflexivity.
Defined.

(** X3. A URL that [isWebUrl] accepts has no line feed and no carriage
    return in it. *)
Theorem isWebUrl_one_line url :
  isWebUrl (Some url) = true ->
  contains "010" url = false /\ contains "013" url = false.
Proof.
  intros H. unfold isWebUrl in H. destruct (negb _); [discriminate|].
  simpl Js.show in H. apply test_spec in H.
  apply matches_one_line in H; [|reflexivity].
  apply all_chars_Forall in H. clear -H.
  induction url as [|c url IH]; simpl in *; [split; reflexivity|].
  apply andb_true_iff in H as [Hc Hrest]. destruct (IH Hrest) as [IH1 IH2].
  rewrite IH1, IH2. unfold any in Hc. apply negb_true_iff, orb_false_iff in Hc.
  destruct Hc as [Hc1 Hc2]. rewrite Hc1, Hc2. split; reflexivity.
Qed.

Lemma isWebUrl_one_line_witness :
  isWebUrl (Some "https://a.bc/d.m4a") = true /\
  contains "010" "https://a.bc/d.m4a" = false /\
  contains "013" "https://a.bc/d.m4a" = false.
Proof.
  split; [reflexivity|].
  apply (isWebUrl_one_line "https://a.bc/d.m4a"). reflexivity.
Defined.

End AcceptedUrls.

(** ** Extensions, queries and keys *)

Module StringFacts.
Import Encoder.

Lemma length_substring s : forall n m,
  (n + m <= String.length s)%nat -> String.length (String.substring n m s) = m.
Proof.
  induction s as [|c s IH]; intros n m H; simpl in H.
  - assert (n = 0%nat) by lia. assert (m = 0%nat) by lia. subst. reflexivity.
  - destruct n as [|n]; simpl.
    + destruct m as [|m]; simpl; [reflexivity|]. rewrite IH by lia. reflexivity.
    + apply IH. lia.
Qed.

Lemma lastIndexOf_from_bounds s c i acc :
  -1 <= acc < i -> -1 <= Js.lastIndexOf_from s c i acc < i + Z.of_nat (String.length s).
Proof.
  revert i acc. induction s as [|a s IH]; intros i acc H; simpl String.length.
  - simpl. lia.
  - simpl Js.lastIndexOf_from.
    destruct (Ascii.eqb a c).
    + specialize (IH (i + 1) i). lia.
    + specialize (IH (i + 1) acc). lia.
Qed.

Lemma lastIndexOf_bounds s c :
  -1 <= Js.lastIndexOf s c < Z.of_nat (String.length s).
Proof.
  unfold Js.lastIndexOf.
  pose proof (lastIndexOf_from_bounds s c 0 (-1)). lia.
Qed.

(** X6. For a URL that is not empty the result of [getExtension] does
    not depend on the fallback: the fallback is only ever used for a
    null or empty URL. *)
Theorem getExtension_ignores_fallback c url fallback fallback' :
  getExtension (Some (String c url)) fallback
  = getExtension (Some (String c url)) fallback'.
Proof.
  unfold getExtension. simpl Js.truthy. cbv iota. simpl Js.show.
  set (s := String c url).
  pose proof (lastIndexOf_bounds s ".") as Hi.
  assert (Hlen : (1 <= String.length s)%nat) by (simpl; lia).
  assert (Hne : (String.length (Js.substr s (Js.lastIndexOf s ".")) =? 0)%nat = false).
  { apply Nat.eqb_neq. unfold Js.substr.
    destruct (Js.lastIndexOf s "." <? 0) eqn:Eneg.
    - apply Z.ltb_lt in Eneg. rewrite length_substring; lia.
    - apply Z.ltb_ge in Eneg. rewrite length_substring; lia. }
  rewrite Hne. reflexivity.
Qed.

(** *** [stripQueryAndFragments] *)

Lemma indexOf_from_absent s c i :
  contains c s = false -> Js.indexOf_from s c i = -1.
Proof.
  revert i. induction s as [|a s IH]; simpl; intros i H; [reflexivity|].
  apply orb_false_iff in H as [Ha Hs]. rewrite Ha. apply IH, Hs.
Qed.

Lemma indexOf_from_first before c after i :
  contains c before = false ->
  Js.indexOf_from (before +:+ String c after) c i = i + Z.of_nat (String.length before).
Proof.
  revert i. induction before as [|a before IH]; simpl String.length; intros i H.
  - simpl. rewrite Ascii.eqb_refl. lia.
  - simpl in H. apply orb_false_iff in H as [Ha Hb].
    simpl. rewrite Ha, IH by exact Hb. lia.
Qed.

Lemma substring_prefix a b :
  String.substring 0 (String.length a) (a +:+ b) = a.
Proof. induction a as [|c a IH]; simpl; [destruct b; reflexivity | now rewrite IH]. Qed.

(** X7. [stripQueryAndFragments] turns a non-empty URL without a
    question mark into the empty string: [indexOf] answers -1 and
    [substr(0, -1)] is empty. *)
Theorem stripQueryAndFragments_without_query c url :
  contains "?" (String c url) = false ->
  stripQueryAndFragments (Some (String c url)) = Some "".
Proof.
  intros H. unfold stripQueryAndFragments. simpl Js.truthy. cbv iota.
  simpl Js.show. unfold Js.indexOf. rewrite (indexOf_from_absent _ _ _ H).
  unfold Js.substr_len. change (0 <? 0) with false. cbv iota.
  rewrite Z.min_l by lia. change (Z.max (-1) 0) with 0.
  rewrite Z.min_l by lia. simpl Z.to_nat.
  reflexivity.
Qed.

Lemma stripQueryAndFragments_without_query_witness :
  contains "?" "http://a.bc/d.m4a" = false /\
  stripQueryAndFragments (Some "http://a.bc/d.m4a") = Some "".
Proof.
  split; [reflexivity|].
  apply (stripQueryAndFragments_without_query "h" "ttp://a.bc/d.m4a"). reflexivity.
Defined.

(** X8. Of a URL with a question mark [stripQueryAndFragments] keeps
    what stands before the first one. *)
Theorem stripQueryAndFragments_with_query before after :
  contains "?" before = false ->
  stripQueryAndFragments (Some (before +:+ String "?" after)) = Some before.
Proof.
  intros H. unfold stripQueryAndFragments.
  assert (Ht : Js.truthy (Some (before +:+ String "?" after)) = true)
    by (destruct before; reflexivity).
  rewrite Ht. simpl Js.show. unfold Js.indexOf.
  rewrite (indexOf_from_first _ _ _ _ H). unfold Js.substr_len.
  change (0 <? 0) with false. cbv iota. rewrite ExtensionFacts.length_append. simpl String.length.
  rewrite Z.min_l by lia. rewrite Z.max_l by lia. rewrite Z.min_l by lia.
  simpl Z.to_nat at 1. rewrite Z.add_0_l, Nat2Z.id.
  rewrite substring_prefix. reflexivity.
Qed.

Lemma stripQueryAndFragments_with_query_witness :
  contains "?" "http://a.bc/d.m4a" = false /\
  stripQueryAndFragments (Some "http://a.bc/d.m4a?v=1.2?x") = Some "http://a.bc/d.m4a".
Proof.
  split; [reflexivity|].
  apply (stripQueryAndFragments_with_query "http://a.bc/d.m4a" "v=1.2?x"). reflexivity.
Defined.

(** *** [urlForKey] *)

Lemma append_assoc a b c : (a +:+ b) +:+ c = a +:+ b +:+ c.
Proof.
  induction a as [|x a IH]; [reflexivity|].
  change (String x ((a +:+ b) +:+ c) = String x (a +:+ b +:+ c)).
  f_equal. exact IH.
Qed.

(** X9. The URL does not tell the bucket from the key: a bucket
    [b/m] with key [k] and a bucket [b] with key [m/k] have the
    same URL. *)
Theorem urlForKey_slash_moves bucket middle key :
  urlForKey (bucket +:+ "/" +:+ middle) key = urlForKey bucket (middle +:+ "/" +:+ key).
Proof.
  unfold urlForKey. rewrite !append_assoc. reflexivity.
Qed.

(** X10. Within one bucket, two keys with the same URL are the same
    key. *)
Theorem urlForKey_key_inj bucket key key' :
  urlForKey bucket key = urlForKey bucket key' -> key = key'.
Proof.
  unfold urlForKey. intros H.
  apply (inj (String.append _)) in H.
  apply (inj (String.append _)) in H.
  apply (inj (String.append _)) in H. exact H.
Qed.

Lemma urlForKey_key_inj_witness :
  urlForKey "bespoken" ("testKey" +:+ ".mp3") = urlForKey "bespoken" "testKey.mp3" /\
  "testKey" +:+ ".mp3" = "testKey.mp3".
Proof.
  split; [reflexivity|].
  apply (urlForKey_key_inj "bespoken" ("testKey" +:+ ".mp3") "testKey.mp3").
  reflexivity.
Defined.

End StringFacts.

(** ** The stages, outcome by outcome *)

Module StageFacts.
Import Encoder PipelineFacts.
Local Open Scope proc_scope.

(** No event of the kind in a trace that is written out. *)
Ltac absent :=
  let H := fresh in
  intros H;
  repeat (apply elem_of_cons in H as [H|H]; [discriminate|]);
  inversion H.

(** X11. When every stage works, [encode] does exactly this, in this
    order: allocate the temporary file, open it, get the source, close
    the file, allocate the output name, run [ffmpeg], delete the
    download, set the credentials, read the output, put the object,
    delete the output, and call back with the URL of the key.  The disk
    is as before. *)
Theorem encode_happy_path w params fs inputPath outputPath data :
  isWebUrl (sourceUrl params) = true ->
  unique_name (tmp_file_stem w) (getExtension (sourceUrl params) ".tmp") fs
    = inr inputPath ->
  http_get w (Js.show (sourceUrl params)) = [OnResponse (mkResponse 200 Finished)] ->
  unique_name (tmp_name_stem w) ".mp3" ({[inputPath]} ∪ fs) = inr outputPath ->
  exec_file w "ffmpeg"
    ["-i"; path_normalize w inputPath; "-codec:a"; "libmp3lame"; "-b:a"; "48k";
     "-ar"; "16000"; "-af"; "volume=3"; outputPath] = ExecOk ->
  unlink_refused w inputPath = None ->
  unlink_refused w outputPath = None ->
  read_file w outputPath = inr data ->
  put_object w (mkPut (targetBucket params) (targetKey params) (Some data) "public-read")
    = None ->
  trace (encode w params report (start fs)) =
    [TmpFile (getExtension (sourceUrl params) ".tmp") true;
     CreateWriteStream inputPath;
     HttpGet (Js.show (sourceUrl params));
     FileClose inputPath;
     TmpName ".mp3";
     ExecFile "ffmpeg"
       ["-i"; path_normalize w inputPath; "-codec:a"; "libmp3lame"; "-b:a"; "48k";
        "-ar"; "16000"; "-af"; "volume=3"; outputPath];
     Unlink inputPath;
     ConfigUpdate (accessKeyId params) (accessSecret params);
     ReadFile outputPath;
     PutObject (mkPut (targetBucket params) (targetKey params) (Some data) "public-read");
     Unlink outputPath;
     Called None (Some (urlForKey (targetBucket params) (targetKey params)))] /\
  files (encode w params report (start fs)) = fs.
Proof.
  intros Hurl Hname Hget Hout Hexec Hdel1 Hdel2 Hread Hput.
  pose proof (unique_name_fresh _ _ _ _ Hname) as Hin.
  pose proof (unique_name_fresh _ _ _ _ Hout) as Hfresh.
  run. rewrite Hname, Hurl. run. rewrite Hget. run.
  cbn [statusCode piped Z.eqb Pos.eqb]. run.
  replace ({[inputPath]} ∪ ({[inputPath]} ∪ fs)) with ({[inputPath]} ∪ fs)
    by set_solver.
  rewrite Hout. run. rewrite Hexec. run.
  rewrite decide_True by set_solver. rewrite Hread. run. rewrite Hput. run.
  rewrite decide_True by set_solver. rewrite Hdel2. run.
  rewrite decide_True by set_solver. rewrite Hdel1. run.
  split; [reflexivity | set_solver].
Qed.

Lemma encode_happy_path_witness :
  files (encode Scenario.happy (Scenario.request "http://a.bc/d.m4a") report (start ∅))
  = ∅.
Proof.
  apply (encode_happy_path Scenario.happy (Scenario.request "http://a.bc/d.m4a") ∅
           "/tmp/in.m4a" "/tmp/out.mp3" "ID3");
    reflexivity.
Defined.

(** X12. When [ffmpeg] fails after a download that worked, [encode]
    reports the one message ["Unable to encode the file to mp3."]
    whatever the error of the subprocess was, which only goes to the
    log; nothing is sent to the store and the credentials are not
    set. *)
Theorem transcode_failure_stops_the_pipeline w params fs inputPath outputPath e partial :
  isWebUrl (sourceUrl params) = true ->
  unique_name (tmp_file_stem w) (getExtension (sourceUrl params) ".tmp") fs
    = inr inputPath ->
  http_get w (Js.show (sourceUrl params)) = [OnResponse (mkResponse 200 Finished)] ->
  unique_name (tmp_name_stem w) ".mp3" ({[inputPath]} ∪ fs) = inr outputPath ->
  exec_file w "ffmpeg"
    ["-i"; path_normalize w inputPath; "-codec:a"; "libmp3lame"; "-b:a"; "48k";
     "-ar"; "16000"; "-af"; "volume=3"; outputPath] = ExecFailed e partial ->
  calls (trace (encode w params report (start fs)))
    = [(Some (JsError "Unable to encode the file to mp3."), None)] /\
  puts (trace (encode w params report (start fs))) = [] /\
  (forall id secret,
     ConfigUpdate id secret ∉ trace (encode w params report (start fs))) /\
  ConsoleError ("Error thrown: " +:+ message e)
    ∈ trace (encode w params report (start fs)).
Proof.
  intros Hurl Hname Hget Hout Hexec.
  run. rewrite Hname, Hurl. run. rewrite Hget. run.
  cbn [statusCode piped Z.eqb Pos.eqb]. run.
  replace ({[inputPath]} ∪ ({[inputPath]} ∪ fs)) with ({[inputPath]} ∪ fs)
    by set_solver.
  rewrite Hout. run. rewrite Hexec. run.
  destruct partial; run; repeat (ask_world; run);
    (split; [reflexivity|]; split; [reflexivity|]; split; [intros id secret; absent|]);
    set_solver.
Qed.

Lemma transcode_failure_stops_the_pipeline_witness :
  calls (trace (encode Scenario.corrupt (Scenario.request "http://a.bc/d.m4a")
                  report (start ∅)))
    = [(Some (JsError "Unable to encode the file to mp3."), None)] /\
  puts (trace (encode Scenario.corrupt (Scenario.request "http://a.bc/d.m4a")
                 report (start ∅))) = [].
Proof.
  pose proof (transcode_failure_stops_the_pipeline Scenario.corrupt
                (Scenario.request "http://a.bc/d.m4a") ∅ "/tmp/in.m4a" "/tmp/out.mp3"
                (JsError "Command failed: ffmpeg") true
                eq_refl eq_refl eq_refl eq_refl eq_refl) as (H1 & H2 & _).
  split; [exact H1 | exact H2].
Defined.

(** X13. When the store rejects the upload, [encode] hands the error
    of the store to the caller as it is, with a null URL; the object was
    put once, with no second attempt, and the deletion of the output
    file was requested all the same. *)
Theorem store_error_passes_through w params fs inputPath outputPath e :
  isWebUrl (sourceUrl params) = true ->
  unique_name (tmp_file_stem w) (getExtension (sourceUrl params) ".tmp") fs
    = inr inputPath ->
  http_get w (Js.show (sourceUrl params)) = [OnResponse (mkResponse 200 Finished)] ->
  unique_name (tmp_name_stem w) ".mp3" ({[inputPath]} ∪ fs) = inr outputPath ->
  exec_file w "ffmpeg"
    ["-i"; path_normalize w inputPath; "-codec:a"; "libmp3lame"; "-b:a"; "48k";
     "-ar"; "16000"; "-af"; "volume=3"; outputPath] = ExecOk ->
  (forall req, put_object w req = Some e) ->
  calls (trace (encode w params report (start fs))) = [(Some e, None)] /\
  length (puts (trace (encode w params report (start fs)))) = 1%nat /\
  Unlink outputPath ∈ trace (encode w params report (start fs)).
Proof.
  intros Hurl Hname Hget Hout Hexec Hput.
  run. rewrite Hname, Hurl. run. rewrite Hget. run.
  cbn [statusCode piped Z.eqb Pos.eqb]. run.
  replace ({[inputPath]} ∪ ({[inputPath]} ∪ fs)) with ({[inputPath]} ∪ fs)
    by set_solver.
  rewrite Hout. run. rewrite Hexec. run.
  repeat (first [rewrite Hput | ask_world]; run);
    (split; [reflexivity|]; split; [reflexivity|]); set_solver.
Qed.

Lemma store_error_passes_through_witness :
  calls (trace (encode Scenario.denied (Scenario.request "http://a.bc/d.m4a")
                  report (start ∅)))
    = [(Some (JsError "InvalidAccessKeyId"), None)].
Proof.
  apply (store_error_passes_through Scenario.denied
           (Scenario.request "http://a.bc/d.m4a") ∅ "/tmp/in.m4a" "/tmp/out.mp3"
           (JsError "InvalidAccessKeyId"));
    reflexivity.
Defined.

(** X14. When the download and the transcoding work,
    [downloadAndEncode] hands over the allocated [.mp3] path with no
    error; the file at that path is the one file the call added to the
    disk, and the downloaded file is gone. *)
Theorem downloadAndEncode_success w sourceUrl fs inputPath outputPath :
  isWebUrl sourceUrl = true ->
  unique_name (tmp_file_stem w) (getExtension sourceUrl ".tmp") fs = inr inputPath ->
  http_get w (Js.show sourceUrl) = [OnResponse (mkResponse 200 Finished)] ->
  unique_name (tmp_name_stem w) ".mp3" ({[inputPath]} ∪ fs) = inr outputPath ->
  exec_file w "ffmpeg"
    ["-i"; path_normalize w inputPath; "-codec:a"; "libmp3lame"; "-b:a"; "48k";
     "-ar"; "16000"; "-af"; "volume=3"; outputPath] = ExecOk ->
  unlink_refused w inputPath = None ->
  calls (trace (downloadAndEncode w sourceUrl report (start fs)))
    = [(None, Some outputPath)] /\
  files (downloadAndEncode w sourceUrl report (start fs)) = {[outputPath]} ∪ fs /\
  inputPath ∉ files (downloadAndEncode w sourceUrl report (start fs)).
Proof.
  intros Hurl Hname Hget Hout Hexec Hdel.
  pose proof (unique_name_fresh _ _ _ _ Hname) as Hin.
  pose proof (unique_name_fresh _ _ _ _ Hout) as Hfresh.
  run. rewrite Hname, Hurl. run. rewrite Hget. run.
  cbn [statusCode piped Z.eqb Pos.eqb]. run.
  replace ({[inputPath]} ∪ ({[inputPath]} ∪ fs)) with ({[inputPath]} ∪ fs)
    by set_solver.
  rewrite Hout. run. rewrite Hexec. run.
  rewrite decide_True by set_solver. rewrite Hdel. run.
  split; [reflexivity|]. split; set_solver.
Qed.

Lemma downloadAndEncode_success_witness :
  calls (trace (downloadAndEncode Scenario.happy (Some "http://a.bc/d.m4a")
                  report (start ∅)))
    = [(None, Some "/tmp/out.mp3")].
Proof.
  apply (downloadAndEncode_success Scenario.happy (Some "http://a.bc/d.m4a") ∅
           "/tmp/in.m4a" "/tmp/out.mp3");
    reflexivity.
Defined.

(** X15. Nothing guards the callback against a second call: when the
    request emits a response with a status other than 200 and then an
    error, [downloadAndEncode] calls back twice, once for each. *)
Theorem response_then_error_calls_back_twice w sourceUrl fs inputPath r e :
  isWebUrl sourceUrl = true ->
  unique_name (tmp_file_stem w) (getExtension sourceUrl ".tmp") fs = inr inputPath ->
  http_get w (Js.show sourceUrl) = [OnResponse r; OnError e] ->
  statusCode r <> 200 ->
  calls (trace (downloadAndEncode w sourceUrl report (start fs))) =
    [(Some (JsError ("Unable to download and save file at path "
                     +:+ Js.show sourceUrl +:+ ". Error: "
                     +:+ "Could not retrieve file from " +:+ Js.show sourceUrl)), None);
     (Some (JsError ("Unable to download and save file at path "
                     +:+ Js.show sourceUrl +:+ ". Error: " +:+ message e)), None)].
Proof.
  intros Hurl Hname Hget Hstatus.
  run. rewrite Hname, Hurl. run. rewrite Hget. run.
  apply Z.eqb_neq in Hstatus. rewrite Hstatus. run. reflexivity.
Qed.

Lemma response_then_error_calls_back_twice_witness :
  length (calls (trace (downloadAndEncode Scenario.flaky (Some "http://a.bc/d.m4a")
                          report (start ∅)))) = 2%nat.
Proof.
  rewrite (response_then_error_calls_back_twice Scenario.flaky
             (Some "http://a.bc/d.m4a") ∅ "/tmp/in.m4a"
             (mkResponse 404 Stalled) (JsError "ECONNRESET"));
    [reflexivity | reflexivity | reflexivity | reflexivity | simpl; lia].
Defined.

(** X16. When piping the body of a 200 response to the file throws,
    the exception is logged and reported as a download error with its
    message; no subprocess starts and the temporary file stays on
    disk. *)
Theorem pipe_error_is_reported w sourceUrl fs inputPath r e :
  isWebUrl sourceUrl = true ->
  unique_name (tmp_file_stem w) (getExtension sourceUrl ".tmp") fs = inr inputPath ->
  http_get w (Js.show sourceUrl) = [OnResponse r] ->
  statusCode r = 200 ->
  piped r = PipeThrew e ->
  trace (downloadAndEncode w sourceUrl report (start fs)) =
    [TmpFile (getExtension sourceUrl ".tmp") true;
     CreateWriteStream inputPath;
     HttpGet (Js.show sourceUrl);
     ConsoleError ("Error thrown: " +:+ message e);
     Called (Some (JsError ("Unable to download and save file at path "
                            +:+ Js.show sourceUrl +:+ ". Error: " +:+ message e)))
       None] /\
  inputPath ∈ files (downloadAndEncode w sourceUrl report (start fs)).
Proof.
  intros Hurl Hname Hget Hstatus Hpipe.
  run. rewrite Hname, Hurl. run. rewrite Hget. run.
  rewrite Hstatus, Hpipe. run. split; [reflexivity | set_solver].
Qed.

Lemma pipe_error_is_reported_witness :
  "/tmp/in.m4a"
    ∈ files (downloadAndEncode Scenario.unpiped (Some "http://a.bc/d.m4a")
               report (start ∅)).
Proof.
  apply (pipe_error_is_reported Scenario.unpiped (Some "http://a.bc/d.m4a") ∅
           "/tmp/in.m4a" (mkResponse 200 (PipeThrew (JsError "EPIPE")))
           (JsError "EPIPE"));
    reflexivity.
Defined.

(** X17. [convertFile] deletes no file that was there before, its input
    included, and the only file it can leave behind is the one at the
    output path it allocated. *)
Theorem convertFile_keeps_other_files w inputFile fs :
  fs ⊆ files (convertFile w inputFile report (start fs)) /\
  files (convertFile w inputFile report (start fs))
    ⊆ fs ∪ match unique_name (tmp_name_stem w) ".mp3" fs with
           | inl _ => ∅
           | inr outputPath => {[outputPath]}
           end.
Proof.
  run. destruct (unique_name (tmp_name_stem w) ".mp3" fs) as [e|outputPath] eqn:Hout.
  { run. split; set_solver. }
  pose proof (unique_name_fresh _ _ _ _ Hout) as Hfresh.
  run. repeat (ask_world; run); simpl; split; set_solver.
Qed.

(** The input is still there after a conversion that failed. *)
Lemma convertFile_keeps_other_files_witness :
  "/tmp/in.m4a"
    ∈ files (convertFile Scenario.corrupt "/tmp/in.m4a" report (start {["/tmp/in.m4a"]})).
Proof.
  apply (proj1 (convertFile_keeps_other_files Scenario.corrupt "/tmp/in.m4a"
                  {["/tmp/in.m4a"]})).
  set_solver.
Defined.

(** X18. When the file can be read, [sendOffToBucket] puts its content
    under the bucket and the key with the ACL [public-read], hands over
    the error of the store or the URL of the key, and leaves the disk as
    it is: it does not delete what it uploaded. *)
Theorem sendOffToBucket_uploads_the_content w fileUri bucket itemKey fs data :
  fileUri ∈ fs ->
  read_file w fileUri = inr data ->
  trace (sendOffToBucket w fileUri bucket itemKey report (start fs)) =
    [ReadFile fileUri;
     PutObject (mkPut bucket itemKey (Some data) "public-read");
     match put_object w (mkPut bucket itemKey (Some data) "public-read") with
     | Some e => Called (Some e) None
     | None => Called None (Some (urlForKey bucket itemKey))
     end] /\
  files (sendOffToBucket w fileUri bucket itemKey report (start fs)) = fs.
Proof.
  intros Hin Hread. run. rewrite decide_True by exact Hin. rewrite Hread. run.
  destruct (put_object w _); split; reflexivity.
Qed.

Lemma sendOffToBucket_uploads_the_content_witness :
  puts (trace (sendOffToBucket Scenario.happy "/tmp/out.mp3" "bucket" "key.mp3"
                 report (start {["/tmp/out.mp3"]})))
  = [mkPut "bucket" "key.mp3" (Some "ID3") "public-read"].
Proof.
  rewrite (proj1 (sendOffToBucket_uploads_the_content Scenario.happy "/tmp/out.mp3"
                    "bucket" "key.mp3" {["/tmp/out.mp3"]} "ID3"
                    ltac:(set_solver) eq_refl)).
  reflexivity.
Defined.

(** The witness of X19, which is stated with the claims: a world in
    which [tmp.file] fails. *)
Lemma allocation_error_is_uncaught_witness :
  trace (encode Scenario.no_tmp (Scenario.request "http://a.bc/d.m4a") report (start ∅))
  = [TmpFile ".m4a" true; Uncaught "fs.createWriteStream"].
Proof.
  apply (allocation_error_is_uncaught Scenario.no_tmp
           (Scenario.request "http://a.bc/d.m4a") ∅
           (JsError "ENOENT: no such file or directory")).
  reflexivity.
Defined.

End StageFacts.

(** ** What a request never does *)

Module BoundsFacts.
Import Encoder.
Local Open Scope proc_scope.

Lemma unique_name_made stem postfix fs p :
  unique_name stem postfix fs = inr p ->
  exists s, stem = inr s /\ contains "/" postfix = false /\ p = s +:+ postfix.
Proof.
  unfold unique_name. destruct stem as [e|s]; [discriminate|].
  destruct (contains "/" postfix); [discriminate|].
  destruct (decide _); [discriminate|]. intros [= <-]. eauto.
Qed.

Section Bounds.
Variable w : World.
Variable params : Params.

Let Q := allowed w params.

Lemma within_skip : Within Q skip.
Proof. intros st H. exact H. Qed.

Lemma within_seq a b : Within Q a -> Within Q b -> Within Q (a ;; b).
Proof.
  intros Ha Hb st H. unfold seq.
  pose proof (Ha st H) as H'. destruct (a st) as [fs t []]; [exact H'|].
  apply Hb, H'.
Qed.

Lemma within_emit e : Q e -> Within Q (emit e).
Proof.
  intros He st H. unfold emit. simpl. apply Forall_app. split; [exact H|].
  constructor; [exact He | constructor].
Qed.

Lemma within_throw what : Within Q (throw what).
Proof.
  intros st H. unfold throw. simpl. apply Forall_app. split; [exact H|].
  constructor; [exact I | constructor].
Qed.

Lemma within_create p : Within Q (create p).
Proof. intros st H. exact H. Qed.

Lemma within_remove p : Within Q (remove p).
Proof. intros st H. exact H. Qed.

Lemma within_log msg : Within Q (console_error msg).
Proof. apply within_emit. exact I. Qed.

Lemma within_log_or_skip (log : Error -> string) err :
  Within Q (match err with Some e => console_error (log e) | None => skip end).
Proof. destruct err; [apply within_log | apply within_skip]. Qed.

Lemma within_report err res : Within Q (report err res).
Proof. apply within_emit. exact I. Qed.

Lemma within_unlink_done path cb :
  (forall e, Within Q (cb e)) -> Within Q (fs_unlink_done w path cb).
Proof.
  intros Hcb st H. unfold fs_unlink_done.
  destruct (decide _); [destruct (unlink_refused w path)|]; apply Hcb;
    try apply within_remove; exact H.
Qed.

Lemma within_unlink path cb rest :
  input_name w params path \/ output_name w path ->
  (forall e, Within Q (cb e)) -> Within Q rest ->
  Within Q (fs_unlink w path cb rest).
Proof.
  intros Hp Hcb Hrest. unfold fs_unlink.
  apply within_seq; [apply within_emit; exact Hp|].
  apply within_seq; [exact Hrest | apply within_unlink_done, Hcb].
Qed.

Lemma within_readFile path cb :
  output_name w path -> (forall e d, Within Q (cb e d)) ->
  Within Q (fs_readFile w path cb).
Proof.
  intros Hp Hcb st H. unfold fs_readFile.
  destruct (decide _); [destruct (read_file w path)|]; apply Hcb;
    (apply within_emit; [exact Hp | exact H]).
Qed.

Lemma within_execFile cmd args cb :
  Q (ExecFile cmd args) -> (forall e, Within Q (cb e)) ->
  Within Q (cprocess_execFile w cmd args cb).
Proof.
  intros Hq Hcb. unfold cprocess_execFile.
  apply within_seq; [apply within_emit; exact Hq|].
  destruct (exec_file w cmd args) as [|e partial].
  - apply within_seq; [apply within_create | apply Hcb].
  - apply within_seq; [destruct partial; [apply within_create | apply within_skip]
                      | apply Hcb].
Qed.

Lemma within_putObject req cb :
  Q (PutObject req) -> (forall e, Within Q (cb e)) -> Within Q (s3_putObject w req cb).
Proof.
  intros Hq Hcb. apply within_seq; [apply within_emit; exact Hq | apply Hcb].
Qed.

Lemma within_request_get url onResponse onError :
  Q (HttpGet url) ->
  (forall r, Within Q (onResponse r)) -> (forall e, Within Q (onError e)) ->
  Within Q (request_get w url onResponse onError).
Proof.
  intros Hq Hr He. unfold request_get.
  apply within_seq; [apply within_emit; exact Hq|].
  induction (http_get w url) as [|ev evs IH]; simpl.
  - apply within_skip.
  - apply within_seq;
      [destruct ev; [apply Hr | apply He | apply within_throw] | exact IH].
Qed.

(** The name of the result is the stem of the world with [.mp3]. *)
Lemma within_tmp_tmpName cb :
  (forall e, Within Q (cb (inl e))) ->
  (forall p, output_name w p -> Within Q (cb (inr p))) ->
  Within Q (tmp_tmpName w ".mp3" cb).
Proof.
  intros He Hp st H. unfold tmp_tmpName.
  assert (H1 : Forall Q (trace (emit (TmpName ".mp3") st)))
    by (apply within_emit; [reflexivity | assumption]).
  destruct (unique_name _ _ _) as [err|name] eqn:Hname; [apply He, H1|].
  apply unique_name_made in Hname as (stem & Hstem & _ & ->).
  apply Hp; [|exact H1]. exists stem. auto.
Qed.

(** The name of the download is the stem of the world with the
    extension of the source, and that extension has no slash. *)
Lemma within_tmp_file cb :
  (forall e, Within Q (cb (inl e))) ->
  (forall p, input_name w params p -> Within Q (cb (inr p))) ->
  Within Q (tmp_file w (getExtension (sourceUrl params) ".tmp") true cb).
Proof.
  intros He Hp st H. unfold tmp_file.
  assert (H1 : Forall Q (trace (emit (TmpFile (getExtension (sourceUrl params) ".tmp")
                                        true) st)))
    by (apply within_emit; [split; reflexivity | assumption]).
  destruct (unique_name _ _ _) as [err|name] eqn:Hname; [apply He, H1|].
  apply unique_name_made in Hname as (stem & Hstem & Hslash & ->).
  apply Hp; [|apply within_create, H1]. exists stem. auto.
Qed.

Lemma within_createWriteStream path k :
  input_name w params path -> Within Q (k path) ->
  Within Q (fs_createWriteStream (Some path) k).
Proof.
  intros Hmade Hk. unfold fs_createWriteStream, need_string.
  apply within_seq; [apply within_emit; exact Hmade|].
  apply within_seq; [apply within_create | exact Hk].
Qed.

Lemma within_networkGet callback errorCallback :
  (forall r, Within Q (callback r)) ->
  (forall e, Within Q (errorCallback (Some e))) ->
  Within Q (networkGet w (sourceUrl params) callback errorCallback).
Proof.
  intros Hr He. unfold networkGet.
  destruct (isWebUrl (sourceUrl params)) eqn:Hurl; [|apply He].
  apply within_request_get; [|exact Hr | intros e; apply He].
  destruct (sourceUrl params) as [u|] eqn:Hsource; [|discriminate].
  unfold Q, allowed. rewrite Hsource. split; [reflexivity | exact Hurl].
Qed.

Lemma within_saveTempFile callback :
  (forall e, Within Q (callback (Some e) None)) ->
  (forall p, input_name w params p -> Within Q (callback None (Some p))) ->
  Within Q (saveTempFile w (sourceUrl params) callback).
Proof.
  intros He Hp. unfold saveTempFile.
  apply within_tmp_file.
  { intros e. apply within_throw. }
  intros inputPath Hmade.
  apply within_createWriteStream; [exact Hmade|].
  apply within_networkGet.
  - intros response. destruct (statusCode response =? 200)%Z; [|apply He].
    destruct (piped response) as [|e|].
    + apply within_seq; [apply within_emit; exact Hmade | apply Hp, Hmade].
    + apply within_seq; [apply within_log | apply He].
    + apply within_skip.
  - intros e. apply within_seq; [apply within_log | apply He].
Qed.

Lemma within_convertFile inputFile callback :
  input_name w params inputFile ->
  (forall e, Within Q (callback (Some e) None)) ->
  (forall p, output_name w p -> Within Q (callback None (Some p))) ->
  Within Q (convertFile w inputFile callback).
Proof.
  intros Hin He Hp. unfold convertFile.
  apply within_tmp_tmpName; [exact He|].
  intros outputPath Hmade. apply within_execFile.
  - split; [reflexivity|]. exists inputFile, outputPath. auto.
  - intros [e|].
    + apply within_unlink; [right; exact Hmade| |].
      * intros [e'|]; [apply within_log | apply within_skip].
      * apply within_seq; [apply within_log | apply He].
    + apply within_seq; [apply within_skip | apply Hp, Hmade].
Qed.

Lemma within_downloadAndEncode callback :
  (forall e, Within Q (callback (Some e) None)) ->
  (forall p, output_name w p -> Within Q (callback None (Some p))) ->
  Within Q (downloadAndEncode w (sourceUrl params) callback).
Proof.
  intros He Hp. unfold downloadAndEncode.
  apply within_saveTempFile; [intros e; apply He|].
  intros fileUri Hmade. simpl.
  apply within_convertFile; [exact Hmade| |].
  - intros e. apply within_unlink;
      [left; exact Hmade | intros err; apply within_log_or_skip | apply He].
  - intros p Hpm. apply within_unlink;
      [left; exact Hmade | intros err; apply within_log_or_skip | apply Hp, Hpm].
Qed.

Lemma within_sendOffToBucket fileUri callback :
  output_name w fileUri ->
  (forall e u, Within Q (callback e u)) ->
  Within Q (sendOffToBucket w fileUri (targetBucket params) (targetKey params) callback).
Proof.
  intros Hmade Hcb. unfold sendOffToBucket.
  apply within_readFile; [exact Hmade|]. intros err data.
  apply within_putObject; [repeat split|]. intros [e|]; apply Hcb.
Qed.

End Bounds.

(** X20. Whatever the collaborators answer, and however many events
    the request emits, [encode] stays within bounds.  The only URL it
    gets is the source, and only when [isWebUrl] accepts it.  The only
    file it writes and closes is the download: the one name [tmp.file]
    makes up, stem and extension of the source, an extension without a
    slash.  The only file it reads is the result: the one name
    [tmp.tmpName] makes up, stem and [.mp3].  The only program it runs
    is [ffmpeg] with the fixed profile, from the download to the
    result; the only files it deletes are these two; and the only
    objects it puts go to the bucket and key of the request with the
    ACL [public-read]. *)
Theorem encode_stays_within_bounds w params fs :
  Forall (allowed w params) (trace (encode w params report (start fs))).
Proof.
  assert (H : Within (allowed w params) (encode w params report)).
  { unfold encode. apply within_downloadAndEncode.
    - intros e. apply within_report.
    - intros mp3file Hmade.
      apply within_seq; [apply within_emit; split; reflexivity|]. simpl.
      apply within_sendOffToBucket; [exact Hmade|]. intros e u.
      apply within_unlink;
        [right; exact Hmade | intros err; apply within_log_or_skip
        | apply within_report]. }
  apply H. constructor.
Qed.

End BoundsFacts.
